(** * Finam_Task: conversation segmentation and annotation pipeline

    A shallow embedding of the Python sources
    - [utils/conv/conversation.py]  (data model, [ConvBlock.from_csv_block],
      [get_category_for_intent], [validate_request_category]),
    - [utils/conv/parser.py]        ([ConversationParser]),
    - [utils/problem_eda.py]        ([ProblemDetector]),
    - [utils/qroq/groq_mapper.py]   ([GroqMapper]),
    - [utils/qroq/groq_processor.py] and [utils/conv_processor.py]
      (batch loops, incremental saving and progress files).

    Python [str] values are lists of Unicode code points ([ustr]).  String
    literals below are UTF-8 byte strings and are decoded with [u]. *)

From Stdlib Require Import List Bool Arith ZArith QArith String Ascii Lia Permutation.
From Stdlib Require Sorted.
From Stdlib Require PrimFloat SpecFloat FloatOps.
Import ListNotations.

Open Scope bool_scope.
Open Scope nat_scope.

(* ------------------------------------------------------------------ *)
(** ** Text *)

(** A Python [str]: a sequence of code points. *)
Definition ustr := list N.

(** Decoding of UTF-8 bytes into code points (well-formed input). *)
Fixpoint utf8_decode (l : list N) : ustr :=
  match l with
  | [] => []
  | b1 :: r1 =>
      if (b1 <? 128)%N then b1 :: utf8_decode r1 else
      match r1 with
      | [] => []
      | b2 :: r2 =>
          if (b1 <? 224)%N then
            ((b1 - 192) * 64 + (b2 - 128))%N :: utf8_decode r2
          else
          match r2 with
          | [] => []
          | b3 :: r3 =>
              if (b1 <? 240)%N then
                ((b1 - 224) * 4096 + (b2 - 128) * 64 + (b3 - 128))%N
                  :: utf8_decode r3
              else
              match r3 with
              | [] => []
              | b4 :: r4 =>
                  ((b1 - 240) * 262144 + (b2 - 128) * 4096
                   + (b3 - 128) * 64 + (b4 - 128))%N :: utf8_decode r4
              end
          end
      end
  end.

(** A Python string literal. *)
Definition u (s : string) : ustr :=
  utf8_decode (map N_of_ascii (list_ascii_of_string s)).

(** [str.lower] on one code point, for the Latin and Cyrillic letters the
    program's texts and keyword tables use (other code points are kept). *)
Definition lower_char (c : N) : N :=
  if ((65 <=? c) && (c <=? 90))%N then (c + 32)%N
  else if ((1040 <=? c) && (c <=? 1071))%N then (c + 32)%N
  else if ((1024 <=? c) && (c <=? 1039))%N then (c + 80)%N
  else c.

Definition lower (s : ustr) : ustr := map lower_char s.

(** [needle in hay] for strings. *)
Fixpoint prefixb (p s : ustr) : bool :=
  match p, s with
  | [], _ => true
  | x :: p', y :: s' => N.eqb x y && prefixb p' s'
  | _ :: _, [] => false
  end.

Fixpoint contains (needle hay : ustr) : bool :=
  prefixb needle hay ||
  match hay with
  | [] => false
  | _ :: hay' => contains needle hay'
  end.

(** [sep.join(parts)]. *)
Fixpoint join (sep : ustr) (parts : list ustr) : ustr :=
  match parts with
  | [] => []
  | [p] => p
  | p :: ps => p ++ sep ++ join sep ps
  end.

Definition ustr_eqb (a b : ustr) : bool :=
  if list_eq_dec N.eq_dec a b then true else false.

(* ------------------------------------------------------------------ *)
(** ** Enumerations of [conversation.py] *)

Module SentimentType.
Inductive t := POSITIVE | NEGATIVE | NEUTRAL.
End SentimentType.

Module ProblemType.
Inductive t :=
  | TECHNICAL_ISSUES | USER_CONFUSION | SYSTEM_LIMITATIONS
  | MISSING_INFORMATION | ROUTING_ERROR | PERFORMANCE_LATENCY.
Definition eqb (a b : t) : bool :=
    match a, b with
    | TECHNICAL_ISSUES, TECHNICAL_ISSUES | USER_CONFUSION, USER_CONFUSION
    | SYSTEM_LIMITATIONS, SYSTEM_LIMITATIONS
    | MISSING_INFORMATION, MISSING_INFORMATION
    | ROUTING_ERROR, ROUTING_ERROR
    | PERFORMANCE_LATENCY, PERFORMANCE_LATENCY => true
    | _, _ => false
    end.
End ProblemType.

Module EmotionType.
Inductive t := FRUSTRATION | SATISFACTION | CONFUSION | URGENCY.
End EmotionType.

Module CategoryType.
Inductive t :=
  | INFORMATION | COMMUNICATION | OTHER | PROJECT_TASKS | HR
  | ORGANIZATIONAL | TECH_SUPPORT | PRODUCTS_INFO | DEPARTMENT_INFO
  | MEETINGS | TASK_MANAGEMENT | FAQ | FEEDBACK | STATISTICS
  | DESIGN_REQUEST | SOURCES_REQUEST.
End CategoryType.

Module IntentType.
Inductive t :=
  | TECHNICAL_HELP | PROCESS_QUESTION | GENERAL_INFO | PRODUCT_INFO
  | ORGANIZATION_INFO | SOURCE_REQUEST | STATISTICS | COORDINATION
  | FEEDBACK | PROJECT_TASK | TASK_MANAGEMENT | HR_REQUEST
  | MEETING_MANAGEMENT | FAQ_USAGE | DESIGN_REQUEST.

  (** [IntentType(value)]: the member with that value, if any. *)
Definition of_value (s : ustr) : option t :=
    if ustr_eqb s (u "technical_help") then Some TECHNICAL_HELP
    else if ustr_eqb s (u "process_question") then Some PROCESS_QUESTION
    else if ustr_eqb s (u "general_info") then Some GENERAL_INFO
    else if ustr_eqb s (u "product_info") then Some PRODUCT_INFO
    else if ustr_eqb s (u "organization_info") then Some ORGANIZATION_INFO
    else if ustr_eqb s (u "source_request") then Some SOURCE_REQUEST
    else if ustr_eqb s (u "statistics") then Some STATISTICS
    else if ustr_eqb s (u "coordination") then Some COORDINATION
    else if ustr_eqb s (u "feedback") then Some FEEDBACK
    else if ustr_eqb s (u "project_task") then Some PROJECT_TASK
    else if ustr_eqb s (u "task_management") then Some TASK_MANAGEMENT
    else if ustr_eqb s (u "hr_request") then Some HR_REQUEST
    else if ustr_eqb s (u "meeting_management") then Some MEETING_MANAGEMENT
    else if ustr_eqb s (u "faq_usage") then Some FAQ_USAGE
    else if ustr_eqb s (u "design_request") then Some DESIGN_REQUEST
    else None.
End IntentType.

Module BlockType.
Inductive t := SYSTEM | USER | AGENT.
Definition eqb (a b : t) : bool :=
    match a, b with
    | SYSTEM, SYSTEM | USER, USER | AGENT, AGENT => true
    | _, _ => false
    end.
End BlockType.

Module AgentType.
Inductive t :=
  | SUPERVISOR | FACTS | QUESTIONS | DEPARTMENTS | PRODUCTS | TASKS
  | MEETINGS | HR | FAQ | FEEDBACK | SOURCES | STATISTIC | DESIGNER.
Definition eq_dec (a b : t) : {a = b} + {a <> b}.
  Proof. decide equality. Defined.
End AgentType.

(* ------------------------------------------------------------------ *)
(** ** [ConvBlock] *)

Record ConvBlock := mkConvBlock {
  block_type : BlockType.t;
  text : ustr;
  agent_type : option AgentType.t
}.

(** The [agent_names] dict of [ConvBlock._extract_agent_type], in its
    insertion (iteration) order. *)
Definition agent_names : list (ustr * AgentType.t) :=
  [ (u "Supervisor", AgentType.SUPERVISOR);
    (u "Facts assistant", AgentType.FACTS);
    (u "Questions assistant", AgentType.QUESTIONS);
    (u "Departments assistant", AgentType.DEPARTMENTS);
    (u "Products assistant", AgentType.PRODUCTS);
    (u "Tasks assistant", AgentType.TASKS);
    (u "Meetings assistant", AgentType.MEETINGS);
    (u "HR assistant", AgentType.HR);
    (u "FAQ assistant", AgentType.FAQ);
    (u "Feedback assistant", AgentType.FEEDBACK);
    (u "Sources assistant", AgentType.SOURCES);
    (u "Statistic assistant", AgentType.STATISTIC);
    (u "Designer assistant", AgentType.DESIGNER) ].

(** The [for agent_name, agent_type in agent_names.items()] loop. *)
Fixpoint search_agent (names : list (ustr * AgentType.t)) (block_data : ustr)
  : option AgentType.t :=
  match names with
  | [] => None
  | (agent_name, a_type) :: rest =>
      if contains agent_name block_data then Some a_type
      else search_agent rest block_data
  end.

Definition extract_agent_type (block_data : ustr) : option AgentType.t :=
  search_agent agent_names block_data.

(** [block_type_mapping.get(csv_block_type, BlockType.SYSTEM)]. *)
Definition block_type_of_csv (csv_block_type : string) : BlockType.t :=
  if String.eqb csv_block_type "request" then BlockType.USER
  else if String.eqb csv_block_type "response" then BlockType.SYSTEM
  else if String.eqb csv_block_type "intermidiat_response" then BlockType.AGENT
  else BlockType.SYSTEM.

(** [ConvBlock.from_csv_block]. *)
Definition from_csv_block (block_data : ustr) (csv_block_type : string)
  : ConvBlock :=
  let bt := block_type_of_csv csv_block_type in
  let txt :=
    if BlockType.eqb bt BlockType.USER then block_data
    else if 150 <? List.length block_data then firstn 150 block_data
    else block_data in
  let a_type :=
    if BlockType.eqb bt BlockType.AGENT then extract_agent_type block_data
    else None in
  mkConvBlock bt txt a_type.

(* ------------------------------------------------------------------ *)
(** ** Analysis records *)

Record RequestCategory := mkRequestCategory {
  category : list CategoryType.t;
  intent : list IntentType.t
}.

Record ProblemDetection := mkProblemDetection {
  problems : list ProblemType.t
}.

Record UX := mkUX {
  sentiment : SentimentType.t;
  sentiment_confidence : Q;
  emotions : list EmotionType.t;
  feedback : list ustr;
  suggestions : list ustr;
  is_successful : bool
}.

(** [ConversationMap] with fields [request], [problems], [ux]. *)
Record ConversationMap := mkConversationMap {
  cm_request : RequestCategory;
  cm_problems : ProblemDetection;
  cm_ux : UX
}.

(** [get_category_for_intent]: the [intent_category_mapping] table. *)
Definition get_category_for_intent (i : IntentType.t) : CategoryType.t :=
  match i with
  | IntentType.GENERAL_INFO => CategoryType.INFORMATION
  | IntentType.PRODUCT_INFO => CategoryType.INFORMATION
  | IntentType.ORGANIZATION_INFO => CategoryType.INFORMATION
  | IntentType.SOURCE_REQUEST => CategoryType.INFORMATION
  | IntentType.STATISTICS => CategoryType.INFORMATION
  | IntentType.COORDINATION => CategoryType.COMMUNICATION
  | IntentType.FEEDBACK => CategoryType.COMMUNICATION
  | IntentType.PROJECT_TASK => CategoryType.PROJECT_TASKS
  | IntentType.TASK_MANAGEMENT => CategoryType.PROJECT_TASKS
  | IntentType.HR_REQUEST => CategoryType.HR
  | IntentType.MEETING_MANAGEMENT => CategoryType.ORGANIZATIONAL
  | IntentType.TECHNICAL_HELP => CategoryType.TECH_SUPPORT
  | IntentType.FAQ_USAGE => CategoryType.FAQ
  | IntentType.DESIGN_REQUEST => CategoryType.DESIGN_REQUEST
  | IntentType.PROCESS_QUESTION => CategoryType.OTHER
  end.

Definition category_eq_dec (a b : CategoryType.t) : {a = b} + {a <> b}.
Proof. decide equality. Defined.

(** [validate_request_category]: it updates [request.category] in place
    and returns the same object; here the returned value. *)
Definition validate_request_category (request : RequestCategory)
  : RequestCategory :=
  match intent request with
  | [] => request
  | primary_intent :: _ =>
      let expected_category := get_category_for_intent primary_intent in
      if in_dec category_eq_dec expected_category (category request)
      then request
      else mkRequestCategory [expected_category] (intent request)
  end.

(** [Conversation]: times are seconds (pandas timestamps), durations
    minutes as a rational; the source holds its rounding to a double
    ([float_of_Q] below), which is what the latency test compares. *)
Record Conversation := mkConversation {
  dialogue_id : Z;
  user_id : Z;
  start_time : Z;
  end_time : Z;
  duration_minutes : Q;
  message_count : nat;
  full_text : ustr;
  blocks : list ConvBlock;
  agent_types : list AgentType.t;
  departments : list Z;
  analysis : option ConversationMap
}.

Definition set_analysis (c : Conversation) (m : option ConversationMap)
  : Conversation :=
  mkConversation (dialogue_id c) (user_id c) (start_time c) (end_time c)
    (duration_minutes c) (message_count c) (full_text c) (blocks c)
    (agent_types c) (departments c) m.

(* ------------------------------------------------------------------ *)
(** ** [ConversationParser] ([parser.py]) *)

(** One row of the event log ([data.csv]): [user_id], [timestamp] (seconds),
    [block_type], [block_data] and the nullable [nnDepartment]. *)
Record Row := mkRow {
  r_user_id : Z;
  r_timestamp : Z;
  r_block_type : string;
  r_block_data : ustr;
  r_department : option Z
}.

(** [Series.unique()]: distinct values in order of first appearance. *)
Fixpoint unique_from (seen : list Z) (l : list Z) : list Z :=
  match l with
  | [] => []
  | x :: xs =>
      if existsb (Z.eqb x) seen then unique_from seen xs
      else x :: unique_from (x :: seen) xs
  end.

Definition unique (l : list Z) : list Z := unique_from [] l.

(** [sort_values('timestamp')], as a stable insertion sort on [key]. *)
Section SortBy.
Context {A : Type} (key : A -> Z).

Fixpoint insert_by (x : A) (l : list A) : list A :=
    match l with
    | [] => [x]
    | y :: ys => if (key y <=? key x)%Z then y :: insert_by x ys else x :: y :: ys
    end.

Fixpoint sort_by (l : list A) : list A :=
    match l with
    | [] => []
    | x :: xs => insert_by x (sort_by xs)
    end.
End SortBy.

(** The new-conversation test of [segment_conversations]:
    [time_diff > self.time_threshold or
     (prev_row['block_type'] == 'response' and row['block_type'] == 'request')]. *)
Definition is_boundary (time_threshold : Z) (prev row : Row) : bool :=
  (time_threshold <? r_timestamp row - r_timestamp prev)%Z
  || (String.eqb (r_block_type prev) "response"
      && String.eqb (r_block_type row) "request").

(** The [for idx in range(len(user_data))] loop from [idx = 1] on:
    returns the ids appended and the final [current_id]. *)
Fixpoint assign_rest (time_threshold : Z) (prev : Row) (rest : list Row)
  (current_id : Z) : list Z * Z :=
  match rest with
  | [] => ([], current_id)
  | row :: rest' =>
      let current_id' :=
        if is_boundary time_threshold prev row then (current_id + 1)%Z
        else current_id in
      let '(ids, last) := assign_rest time_threshold row rest' current_id' in
      (current_id' :: ids, last)
  end.

(** The whole loop for one user's time-sorted rows. *)
Definition assign_user (time_threshold : Z) (user_data : list Row)
  (current_id : Z) : list Z * Z :=
  match user_data with
  | [] => ([], current_id)
  | r0 :: rest =>
      let '(ids, last) := assign_rest time_threshold r0 rest current_id in
      (current_id :: ids, last)
  end.

(** [df.loc[user_mask, 'dialogue_id'] = dialogue_ids]: the list is written
    positionally into the masked rows, in the frame's row order. *)
Fixpoint loc_assign (mask : Row -> bool) (rows : list Row) (col : list Z)
  (vals : list Z) : list Z :=
  match rows, col with
  | r :: rs, c :: cs =>
      if mask r then
        match vals with
        | v :: vs => v :: loc_assign mask rs cs vs
        | [] => c :: loc_assign mask rs cs []
        end
      else c :: loc_assign mask rs cs vals
  | _, _ => col
  end.

(** The [for user_id in ...unique()] loop; state: the [dialogue_id] column
    and [current_dialogue_id]. *)
Fixpoint segment_users (time_threshold : Z) (df : list Row) (users : list Z)
  (col : list Z) (current_dialogue_id : Z) : list Z :=
  match users with
  | [] => col
  | uid :: us =>
      let user_mask := fun r => Z.eqb (r_user_id r) uid in
      let user_data := sort_by r_timestamp (filter user_mask df) in
      let '(dialogue_ids, current_id) :=
        assign_user time_threshold user_data current_dialogue_id in
      let col' := loc_assign user_mask df col dialogue_ids in
      segment_users time_threshold df us col' (current_id + 1)%Z
  end.

(** [ConversationParser.segment_conversations]: every row with its
    [dialogue_id]. *)
Definition segment_conversations (time_threshold : Z) (df : list Row)
  : list (Row * Z) :=
  combine df
    (segment_users time_threshold df (unique (map r_user_id df))
       (repeat 0%Z (List.length df)) 1%Z).

(** The default threshold, [timedelta(minutes=30)], in seconds. *)
Definition default_time_threshold : Z := (30 * 60)%Z.

(** [min()] / [max()] of a non-empty column, first element [x]. *)
Definition list_min (x : Z) (l : list Z) : Z := fold_left Z.min l x.
Definition list_max (x : Z) (l : list Z) : Z := fold_left Z.max l x.

(** The [seen_blocks] loop: keep the first occurrence of each text. *)
Fixpoint dedup_texts (seen : list ustr) (l : list ustr) : list ustr :=
  match l with
  | [] => []
  | b :: bs =>
      if existsb (ustr_eqb b) seen then dedup_texts seen bs
      else b :: dedup_texts (b :: seen) bs
  end.

(** The [seen_block_texts] loop building the [ConvBlock] list. *)
Fixpoint build_blocks (seen : list ustr) (rows : list Row) : list ConvBlock :=
  match rows with
  | [] => []
  | row :: rows' =>
      let block_data := r_block_data row in
      if existsb (ustr_eqb block_data) seen then build_blocks seen rows'
      else from_csv_block block_data (r_block_type row)
           :: build_blocks (block_data :: seen) rows'
  end.

(** [Conversation.update_agent_types]: the set of agent types of AGENT
    blocks (listed in order of first appearance). *)
Fixpoint agent_set (acc : list AgentType.t) (bs : list ConvBlock)
  : list AgentType.t :=
  match bs with
  | [] => rev acc
  | b :: bs' =>
      match block_type b, agent_type b with
      | BlockType.AGENT, Some a =>
          if in_dec AgentType.eq_dec a acc then agent_set acc bs'
          else agent_set (a :: acc) bs'
      | _, _ => agent_set acc bs'
      end
  end.

(** [conversation_data]: the rows of one dialogue sorted by timestamp. *)
Definition conversation_data (seg : list (Row * Z)) (d : Z) : list Row :=
  sort_by r_timestamp (map fst (filter (fun p => Z.eqb (snd p) d) seg)).

(** The body of the [for dialogue_id in ...unique()] loop of
    [parse_conversations] ([None] for the [continue] on an empty group). *)
Definition parse_dialogue (seg : list (Row * Z)) (d : Z) : option Conversation :=
  match conversation_data seg d with
  | [] => None
  | r0 :: rs =>
      let data := r0 :: rs in
      let tss := map r_timestamp rs in
      let start_t := list_min (r_timestamp r0) tss in
      let end_t := list_max (r_timestamp r0) tss in
      let duration := (inject_Z (end_t - start_t) / inject_Z 60)%Q in
      let full := join [10%N] (dedup_texts [] (map r_block_data data)) in
      let bs := build_blocks [] data in
      let depts := unique (flat_map (fun r => match r_department r with
                                              | Some x => [x] | None => [] end)
                                    data) in
      Some (mkConversation d (r_user_id r0) start_t end_t duration
              (List.length data) full bs (agent_set [] bs) depts None)
  end.

(** [ConversationParser.parse_conversations]. *)
Definition parse_conversations (time_threshold : Z) (df : list Row)
  : list Conversation :=
  let seg := segment_conversations time_threshold df in
  flat_map (fun d => match parse_dialogue seg d with
                     | Some c => [c] | None => [] end)
           (unique (map snd seg)).

(** The dict of [ConversationParser.get_conversation_stats] ([None] for
    the empty dict returned on no conversations). *)
Record ConversationStats := mkConversationStats {
  stats_total_conversations : nat;
  stats_total_messages : nat;
  stats_unique_users : nat;
  stats_avg_duration_minutes : Q;
  stats_avg_message_count : Q
}.

Definition get_conversation_stats (conversations : list Conversation)
  : option ConversationStats :=
  match conversations with
  | [] => None
  | _ =>
      let total_conversations := List.length conversations in
      let total_messages := list_sum (map message_count conversations) in
      let unique_users := List.length (unique (map user_id conversations)) in
      let avg_duration :=
        (fold_left Qplus (map duration_minutes conversations) 0
         / inject_Z (Z.of_nat total_conversations))%Q in
      let avg_message_count :=
        (inject_Z (Z.of_nat total_messages)
         / inject_Z (Z.of_nat total_conversations))%Q in
      Some (mkConversationStats total_conversations total_messages
              unique_users avg_duration avg_message_count)
  end.

(* ------------------------------------------------------------------ *)
(** ** [ProblemDetector] ([problem_eda.py]) *)

(** [ProblemDetector._init_keywords], in the dict's order. *)
Definition keywords : list (ProblemType.t * list ustr) :=
  [ (ProblemType.TECHNICAL_ISSUES, map u
      [ "ошибка"; "сбой"; "упал"; "не работает"; "неисправность"; "баг";
        "глюк"; "поломка"; "отказ"; "нарушение"; "проблема с системой";
        "технические неполадки"; "системная ошибка"; "сервер недоступен";
        "соединение потеряно"; "timeout"; "connection lost";
        "error"; "exception"; "failed"; "failure"; "crash"; "bug";
        "traceback"; "stack trace"; "server error"; "500"; "503"; "502";
        "database error"; "connection error"; "network error";
        "internal error"; "system failure"; "malfunction" ]%string);
    (ProblemType.USER_CONFUSION, map u
      [ "не понимаю"; "не понял"; "не поняла"; "что именно"; "как именно";
        "поясните"; "объясните"; "уточните"; "что вы имеете в виду";
        "не ясно"; "непонятно"; "можете объяснить"; "что это значит";
        "как это работает"; "не разобрался"; "запутался"; "сложно понять";
        "QA уточняет"; "нужны уточнения"; "требуется пояснение";
        "please clarify"; "not clear"; "confused"; "do not understand";
        "what do you mean"; "can you explain"; "please explain";
        "i don't get it"; "unclear"; "ambiguous"; "vague" ]%string);
    (ProblemType.SYSTEM_LIMITATIONS, map u
      [ "не могу"; "не умею"; "не поддерживается"; "недоступно";
        "функция отсутствует"; "пока не реализовано"; "в разработке";
        "не предусмотрено"; "ограничение системы"; "нет такой возможности";
        "данная функция недоступна"; "не может быть выполнено";
        "превышен лимит"; "нет прав доступа"; "функция заблокирована";
        "not supported"; "feature not available"; "cannot perform";
        "limitation"; "restricted"; "access denied"; "permission denied";
        "feature disabled"; "not implemented"; "under development";
        "out of scope"; "beyond capabilities" ]%string);
    (ProblemType.MISSING_INFORMATION, map u
      [ "не найдено"; "ничего не найдено"; "нет данных"; "отсутствует";
        "информация недоступна"; "данные отсутствуют"; "пустой результат";
        "нет результатов"; "база данных пуста"; "записи не найдены";
        "файл не найден"; "документ отсутствует"; "нет такого пользователя";
        "не существует"; "информация устарела"; "данные не обновлены";
        "not found"; "no data"; "no results"; "empty result";
        "no information"; "data not available"; "missing data";
        "no records"; "database empty"; "file not found";
        "document missing"; "user not found"; "does not exist";
        "no match"; "zero results"; "no entries" ]%string);
    (ProblemType.ROUTING_ERROR, map u
      [ "не по адресу"; "неправильный ассистент"; "не мой профиль";
        "не моя специализация"; "обратитесь к другому"; "не компетентен";
        "это не ко мне"; "передаю другому специалисту"; "неправильный отдел";
        "не в моей компетенции"; "обратитесь в другой отдел";
        "я не занимаюсь этим"; "не моя задача"; "переадресую";
        "wrong assistant"; "not my area"; "wrong department";
        "transfer to"; "redirect to"; "not my expertise";
        "out of my scope"; "contact another"; "wrong person";
        "incorrect routing"; "misrouted"; "wrong channel" ]%string) ].

(** [_get_conversation_text]. *)
Definition get_conversation_text (c : Conversation) : ustr :=
  match blocks c with
  | [] => join (u " ") [lower (full_text c)]
  | bs => join (u " ") (map (fun b => lower (text b)) bs)
  end.

(** [_has_keywords]. *)
Definition has_keywords (txt : ustr) (kws : list ustr) : bool :=
  let text_lower := lower txt in
  existsb (fun keyword => contains (lower keyword) text_lower) kws.

(** Python's [float(z)] of an integer: the nearest double, ties to even. *)
Definition float_of_Z (z : Z) : PrimFloat.float :=
  FloatOps.SF2Prim (SpecFloat.binary_normalize FloatOps.prec FloatOps.emax z 0 false).

(** The double the source holds for a duration kept here as a rational
    [n / d]: the correctly rounded quotient [float(n) / float(d)].  For a
    parsed conversation the rational is [(end - start) / 60], so this is
    [(end_time - start_time).total_seconds() / 60] of parser.py. *)
Definition float_of_Q (q : Q) : PrimFloat.float :=
  PrimFloat.div (float_of_Z (Qnum q)) (float_of_Z (Zpos (Qden q))).

(** [conversation.duration_minutes * 60 > self.latency_threshold.total_seconds()],
    in double precision. *)
Definition exceeds_latency (latency_threshold_seconds : Z) (c : Conversation)
  : bool :=
  PrimFloat.ltb (float_of_Z latency_threshold_seconds)
    (PrimFloat.mul (float_of_Q (duration_minutes c)) (float_of_Z 60)).

(** [_has_performance_latency]. *)
Definition has_performance_latency (latency_threshold_seconds : Z)
  (c : Conversation) : bool :=
  match blocks c with
  | [] => exceeds_latency latency_threshold_seconds c
  | bs =>
      let user_blocks :=
        filter (fun b => BlockType.eqb (block_type b) BlockType.USER) bs in
      let system_blocks :=
        filter (fun b => BlockType.eqb (block_type b) BlockType.SYSTEM) bs in
      match user_blocks, system_blocks with
      | [], _ | _, [] => false
      | _, _ => exceeds_latency latency_threshold_seconds c
      end
  end.

(** [ProblemDetector.detect_problems]: the returned list holds the
    elements of the [problems] set (its order is not specified by the
    source; here keyword kinds come in dict order, then latency). *)
Definition detect_problems (latency_threshold_seconds : Z) (c : Conversation)
  : list ProblemType.t :=
  let all_text := get_conversation_text c in
  map fst (filter (fun pk => has_keywords all_text (snd pk)) keywords)
  ++ (if has_performance_latency latency_threshold_seconds c
      then [ProblemType.PERFORMANCE_LATENCY] else []).

(** [create_problem_detection_for_conversation]: default threshold 10 s. *)
Definition create_problem_detection_for_conversation (c : Conversation)
  : ProblemDetection :=
  mkProblemDetection (detect_problems 10 c).

(** *** [ProblemAnalyzer] *)

(** The members of [ProblemType], in declaration order. *)
Definition problem_types : list ProblemType.t :=
  [ProblemType.TECHNICAL_ISSUES; ProblemType.USER_CONFUSION;
   ProblemType.SYSTEM_LIMITATIONS; ProblemType.MISSING_INFORMATION;
   ProblemType.ROUTING_ERROR; ProblemType.PERFORMANCE_LATENCY].

(** The analyzer's attributes; dicts as association lists in insertion
    order. *)
Record ProblemAnalyzer := mkProblemAnalyzer {
  problem_counts : list (ProblemType.t * nat);
  dialog_problems : list (Z * list ProblemType.t);
  total_conversations : nat
}.

(** [ProblemAnalyzer.reset_stats]. *)
Definition reset_stats : ProblemAnalyzer :=
  mkProblemAnalyzer (map (fun problem_type => (problem_type, 0)) problem_types)
    [] 0.

(** [self.problem_counts[problem] += 1]; every member of [ProblemType] is
    a key, so the [KeyError] case is not reached. *)
Fixpoint incr_count (problem : ProblemType.t)
  (counts : list (ProblemType.t * nat)) : list (ProblemType.t * nat) :=
  match counts with
  | [] => []
  | (q, n) :: rest =>
      if ProblemType.eqb problem q then (q, S n) :: rest
      else (q, n) :: incr_count problem rest
  end.

(** [d[k] = v] on a dict: in place when [k] is a key, appended otherwise. *)
Fixpoint dict_set {V : Type} (k : Z) (v : V) (d : list (Z * V))
  : list (Z * V) :=
  match d with
  | [] => [(k, v)]
  | (k', v') :: rest =>
      if Z.eqb k k' then (k', v) :: rest else (k', v') :: dict_set k v rest
  end.

(** One iteration of the [for conversation in conversations] loop. *)
Definition analyze_step (detector_threshold : Z) (st : ProblemAnalyzer)
  (conversation : Conversation) : ProblemAnalyzer :=
  let problems := detect_problems detector_threshold conversation in
  match problems with
  | [] => st
  | _ =>
      mkProblemAnalyzer
        (fold_left (fun counts problem => incr_count problem counts)
           problems (problem_counts st))
        (dict_set (dialogue_id conversation) problems (dialog_problems st))
        (total_conversations st)
  end.

(** The state left by [ProblemAnalyzer.analyze_conversations] with a
    detector of the given latency threshold. *)
Definition analyze_conversations (detector_threshold : Z)
  (conversations : list Conversation) : ProblemAnalyzer :=
  fold_left (analyze_step detector_threshold) conversations
    (mkProblemAnalyzer (problem_counts reset_stats)
       (dialog_problems reset_stats) (List.length conversations)).

(** [sorted(..., key=lambda x: x[1], reverse=True)]: stable, so entries
    with equal counts keep their order. *)
Fixpoint insert_desc (x : ProblemType.t * nat)
  (l : list (ProblemType.t * nat)) : list (ProblemType.t * nat) :=
  match l with
  | [] => [x]
  | y :: ys => if snd x <? snd y then y :: insert_desc x ys else x :: y :: ys
  end.

Fixpoint sort_desc (l : list (ProblemType.t * nat))
  : list (ProblemType.t * nat) :=
  match l with
  | [] => []
  | x :: xs => insert_desc x (sort_desc xs)
  end.

(** [ProblemAnalyzer._get_top_problems]. *)
Definition get_top_problems (top_n : nat) (a : ProblemAnalyzer)
  : list (ProblemType.t * nat) :=
  firstn top_n (sort_desc (problem_counts a)).

(** The dict of [ProblemAnalyzer.get_analysis_summary]. *)
Record AnalysisSummary := mkAnalysisSummary {
  summary_total_conversations : nat;
  problematic_conversations : nat;
  problem_rate : Q;
  summary_problem_counts : list (ProblemType.t * nat);
  problem_percentages : list (ProblemType.t * Q);
  summary_dialog_problems : list (Z * list ProblemType.t);
  top_problems : list (ProblemType.t * nat)
}.

Definition get_analysis_summary (a : ProblemAnalyzer) : AnalysisSummary :=
  let total_problematic := List.length (dialog_problems a) in
  let total := total_conversations a in
  mkAnalysisSummary total total_problematic
    (if 0 <? total
     then (inject_Z (Z.of_nat total_problematic) / inject_Z (Z.of_nat total))%Q
     else 0%Q)
    (problem_counts a)
    (map (fun '(problem, count) =>
            (problem,
             if 0 <? total
             then (inject_Z (Z.of_nat count) / inject_Z (Z.of_nat total) * 100)%Q
             else 0%Q))
         (problem_counts a))
    (dialog_problems a)
    (get_top_problems 3 a).

(** [ProblemAnalyzer.get_conversations_with_problem]. *)
Definition get_conversations_with_problem (problem_type : ProblemType.t)
  (a : ProblemAnalyzer) : list Z :=
  map fst (filter (fun '(_, problems) => existsb (ProblemType.eqb problem_type) problems)
                  (dialog_problems a)).

(** [ProblemAnalyzer.get_problem_distribution], keyed by member, in
    double precision: [count / total_problems * 100] (counts stay below
    2^53, where [float(count) / float(total)] is Python's int division). *)
Definition get_problem_distribution (a : ProblemAnalyzer)
  : list (ProblemType.t * PrimFloat.float) :=
  let total_problems := list_sum (map snd (problem_counts a)) in
  if total_problems =? 0 then map (fun problem => (problem, float_of_Z 0)) problem_types
  else map (fun '(problem, count) =>
              (problem, PrimFloat.mul
                          (PrimFloat.div (float_of_Z (Z.of_nat count))
                                         (float_of_Z (Z.of_nat total_problems)))
                          (float_of_Z 100)))
           (problem_counts a).

(** [analyze_conversation_problems]. *)
Definition analyze_conversation_problems (conversations : list Conversation)
  (latency_threshold : Z) : AnalysisSummary :=
  get_analysis_summary (analyze_conversations latency_threshold conversations).

(* ------------------------------------------------------------------ *)
(** ** [GroqMapper] ([groq_mapper.py]) *)

(** The outcome of one [client.chat.completions.create] call: the reply's
    message content, or the exception raised, as [str(e)]. *)
Inductive ApiResult (A : Type) :=
| ApiOk (content : A)
| ApiErr (error_str : ustr).
Arguments ApiOk {A} content.
Arguments ApiErr {A} error_str.

(** Content of a UX reply: either something [json.loads] or the [UX]
    field conversions reject, or the fields of the JSON object. *)
Inductive UxContent :=
| UxUnparsable
| UxParsed (sentiment : ustr) (sentiment_confidence : Q)
           (emotions : list ustr) (feedback : list ustr)
           (suggestions : list ustr) (is_successful : bool).

(** Content of an intent reply: not a JSON object, or an object whose
    ["intent"] key is absent, a string, or another JSON value. *)
Inductive IntentContent :=
| IntentUnparsable
| IntentMissing
| IntentString (s : ustr)
| IntentOther.

(** What the retry loop does, in order. *)
Inductive RetryEvent :=
| ECall (attempt : nat)
| ESleep (wait_time : Q).

Definition is_digit (c : N) : bool := ((48 <=? c) && (c <=? 57))%N.

Fixpoint take_digits (s : ustr) : ustr * ustr :=
  match s with
  | c :: s' =>
      if is_digit c then let '(d, r) := take_digits s' in (c :: d, r)
      else ([], s)
  | [] => ([], [])
  end.

Definition digits_value (d : ustr) : Z :=
  fold_left (fun acc c => (acc * 10 + Z.of_N (c - 48))%Z) d 0%Z.

(** [float] of [d1] or of [d1 . d2]. *)
Definition decimal_value (d1 d2 : ustr) : Q :=
  (inject_Z (digits_value d1)
   + inject_Z (digits_value d2) / inject_Z (10 ^ Z.of_nat (List.length d2)))%Q.

Definition try_again_prefix : ustr := u "Please try again in ".

(** The group of the pattern (digits, an optional dot, digits, then [s])
    matched at the start of [s] (ASCII digits). *)
Definition match_wait (s : ustr) : option Q :=
  let '(d1, r1) := take_digits s in
  match d1 with
  | [] => None
  | _ =>
      match r1 with
      | 46%N :: r2 =>
          let '(d2, r3) := take_digits r2 in
          match r3 with
          | 115%N :: _ => Some (decimal_value d1 d2)
          | _ => None
          end
      | 115%N :: _ => Some (decimal_value d1 [])
      | _ => None
      end
  end.

(** [re.search] of the pattern [Please try again in] followed by that
    group, in [error_str]: the leftmost match. *)
Fixpoint search_wait (s : ustr) : option Q :=
  match (if prefixb try_again_prefix s
         then match_wait (skipn (List.length try_again_prefix) s)
         else None) with
  | Some w => Some w
  | None =>
      match s with
      | [] => None
      | _ :: s' => search_wait s'
      end
  end.

(** [GroqMapper._extract_wait_time]. *)
Definition extract_wait_time (error_str : ustr) : option Q :=
  search_wait error_str.

(** The rate-limit test of [_handle_rate_limit_error]. *)
Definition is_rate_limit_error (error_str : ustr) : bool :=
  contains (u "rate_limit_exceeded") error_str || contains (u "429") error_str.

(** [GroqMapper._handle_rate_limit_error]: [Some wait_time] when it sleeps
    for [wait_time] and returns [True]; [None] when it returns [False].
    [jitter] is the value of [random.uniform(0, 1)]. *)
Definition handle_rate_limit_error (error_str : ustr) (attempt max_retries : nat)
  (base_delay jitter : Q) : option Q :=
  if is_rate_limit_error error_str then
    if attempt <? max_retries - 1 then
      match extract_wait_time error_str with
      | Some w => Some w
      | None =>
          Some (base_delay * inject_Z (2 ^ Z.of_nat attempt) + jitter)%Q
      end
    else None
  else None.

(** The [for attempt in range(max_retries)] loop shared by [_analyze_ux]
    and [_analyze_intent]. *)
Section Retry.
Context {A R : Type}.
Variable call : nat -> ApiResult A.
Variable jitter : nat -> Q.
Variable parse : A -> R.
Variable default : R.
Variable max_retries : nat.
Variable base_delay : Q.

Fixpoint retry_loop (remaining attempt : nat) : list RetryEvent * R :=
    match remaining with
    | O => ([], default)
    | S remaining' =>
        match call attempt with
        | ApiOk content => ([ECall attempt], parse content)
        | ApiErr e =>
            match handle_rate_limit_error e attempt max_retries base_delay
                    (jitter attempt) with
            | Some w =>
                let '(evs, r) := retry_loop remaining' (S attempt) in
                (ECall attempt :: ESleep w :: evs, r)
            | None => ([ECall attempt], default)
            end
        end
    end.

Definition with_retries : list RetryEvent * R := retry_loop max_retries 0.
End Retry.

(** The attempts called and the waits slept, in order. *)
Definition retry_calls (evs : list RetryEvent) : list nat :=
  flat_map (fun e => match e with ECall a => [a] | ESleep _ => [] end) evs.

Definition retry_sleeps (evs : list RetryEvent) : list Q :=
  flat_map (fun e => match e with ECall _ => [] | ESleep w => [w] end) evs.

(** [GroqMapper._parse_sentiment]. *)
Definition parse_sentiment (sentiment_str : ustr) : SentimentType.t :=
  let s := lower sentiment_str in
  if ustr_eqb s (u "positive") then SentimentType.POSITIVE
  else if ustr_eqb s (u "negative") then SentimentType.NEGATIVE
  else SentimentType.NEUTRAL.

(** [EmotionType(e)] for the values kept by [if e in [...]]. *)
Definition emotion_of_value (e : ustr) : option EmotionType.t :=
  if ustr_eqb e (u "frustration") then Some EmotionType.FRUSTRATION
  else if ustr_eqb e (u "satisfaction") then Some EmotionType.SATISFACTION
  else if ustr_eqb e (u "confusion") then Some EmotionType.CONFUSION
  else if ustr_eqb e (u "urgency") then Some EmotionType.URGENCY
  else None.

(** [GroqMapper._default_ux_analysis]. *)
Definition default_ux_analysis : UX :=
  mkUX SentimentType.NEUTRAL (1 # 2) [] [] [] true.

(** [GroqMapper._parse_ux_analysis]; a confidence outside [0, 1] fails the
    [UX] field constraints and lands in the [except] branch. *)
Definition parse_ux_analysis (content : UxContent) : UX :=
  match content with
  | UxUnparsable => default_ux_analysis
  | UxParsed s conf ems fb sg ok =>
      if Qle_bool 0 conf && Qle_bool conf 1 then
        mkUX (parse_sentiment s) conf
          (flat_map (fun e => match emotion_of_value e with
                              | Some em => [em] | None => [] end) ems)
          fb sg ok
      else default_ux_analysis
  end.

(** [GroqMapper._default_request_category]. *)
Definition default_request_category : RequestCategory :=
  mkRequestCategory [CategoryType.OTHER] [IntentType.GENERAL_INFO].

(** [GroqMapper._parse_intent_analysis]. *)
Definition parse_intent_analysis (content : IntentContent) : RequestCategory :=
  let from_intent i := mkRequestCategory [get_category_for_intent i] [i] in
  match content with
  | IntentUnparsable => default_request_category
  | IntentMissing => from_intent IntentType.GENERAL_INFO
  | IntentString s =>
      match IntentType.of_value s with
      | Some i => from_intent i
      | None => from_intent IntentType.GENERAL_INFO
      end
  | IntentOther => from_intent IntentType.GENERAL_INFO
  end.

Definition max_retries : nat := 3.
Definition base_delay : Q := 1.

(** The oracle as seen by one [map_conversation] call: the answer of each
    attempt of the UX call and of the intent call, and the jitter drawn
    at each attempt. *)
Record Oracle := mkOracle {
  ux_call : nat -> ApiResult UxContent;
  ux_jitter : nat -> Q;
  intent_call : nat -> ApiResult IntentContent;
  intent_jitter : nat -> Q
}.

(** [GroqMapper._analyze_ux]. *)
Definition analyze_ux (o : Oracle) : list RetryEvent * UX :=
  with_retries (ux_call o) (ux_jitter o) parse_ux_analysis default_ux_analysis
    max_retries base_delay.

(** [GroqMapper._analyze_intent]. *)
Definition analyze_intent (o : Oracle) : list RetryEvent * RequestCategory :=
  with_retries (intent_call o) (intent_jitter o) parse_intent_analysis
    default_request_category max_retries base_delay.

(** [GroqMapper.map_conversation]: the events of both retry loops and the
    returned conversation (a copy with [analysis] set).  No step of the
    [try] block raises here, so its [except] branch is not reached. *)
Definition map_conversation (o : Oracle) (c : Conversation)
  : list RetryEvent * Conversation :=
  let '(ev_ux, ux_analysis) := analyze_ux o in
  let '(ev_intent, request_category) := analyze_intent o in
  let problem_detection := create_problem_detection_for_conversation c in
  (ev_ux ++ ev_intent,
   set_analysis c (Some (mkConversationMap request_category
                                           problem_detection ux_analysis))).

(* ------------------------------------------------------------------ *)
(** ** Batch processors: effects on the result store and progress file *)

(** A serialized conversation (the dicts of [conversation_to_dict]);
    [d_blocks] and [d_agent_types] are written by [GroqProcessor] only. *)
Record ConvDict := mkConvDict {
  d_dialogue_id : Z;
  d_user_id : Z;
  d_start_time : Z;
  d_end_time : Z;
  d_duration_minutes : Q;
  d_message_count : nat;
  d_full_text : ustr;
  d_departments : list Z;
  d_blocks : option (list ConvBlock);
  d_agent_types : option (list AgentType.t);
  d_analysis : option ConversationMap
}.

(** [ConversationProcessor.conversation_to_dict].  Its [if conv.analysis]
    branch reads [conv.analysis.sentiment], [.emotions], ..., attributes
    that [ConversationMap] (fields [request], [problems], [ux]) lacks: the
    branch raises [AttributeError], written [None] here. *)
Definition conversation_to_dict (c : Conversation) : option ConvDict :=
  match analysis c with
  | None =>
      Some (mkConvDict (dialogue_id c) (user_id c) (start_time c) (end_time c)
              (duration_minutes c) (message_count c) (full_text c)
              (departments c) None None None)
  | Some _ => None
  end.

(** [GroqProcessor.conversation_to_dict]. *)
Definition groq_conversation_to_dict (c : Conversation) : ConvDict :=
  mkConvDict (dialogue_id c) (user_id c) (start_time c) (end_time c)
    (duration_minutes c) (message_count c) (full_text c) (departments c)
    (Some (blocks c)) (Some (agent_types c)) (analysis c).

(** What [future.result(timeout=120)] gives the orchestrating thread: the
    dict returned by [process_conversation_sync], or a raised timeout. *)
Inductive TaskResult :=
| TaskDone (conversation : Conversation) (success : bool)
| TaskTimeout.

(** [process_conversation_sync] for a mapper that returns a conversation
    or raises ([None]). *)
Definition process_conversation_sync
  (mapper : Conversation -> option Conversation) (c : Conversation)
  : TaskResult :=
  match mapper c with
  | Some analyzed_conv => TaskDone analyzed_conv true
  | None => TaskDone c false
  end.

(** File writes and other effects of the batch loops, in program order. *)
Inductive Effect :=
| SaveResults (batch_processed : list ConvDict) (append_mode : bool)
| SaveProgress (current_index total_count : nat)
| UpdateConversationsFile (updated_conversations : list Conversation)
| SleepBatch
| Abort.

(** The files: the result (or conversations) JSON file, and the
    [current_index] of the progress file. *)
Record Store := mkStore {
  results_file : option (list ConvDict);
  progress_file : option nat
}.

Definition empty_store : Store := mkStore None None.

(** [update_conversations_file]: [data["conversations"][i] = conv_dict]
    for [i < len(data["conversations"])]. *)
Fixpoint overwrite_prefix (data new : list ConvDict) : list ConvDict :=
  match data, new with
  | d :: ds, n :: ns => n :: overwrite_prefix ds ns
  | _, [] => data
  | [], _ => []
  end.

Definition apply_effect (st : Store) (e : Effect) : Store :=
  match e with
  | SaveResults bp append_mode =>
      (* [save_results]; an unreadable existing file is not modelled *)
      let out := if append_mode then
                   match results_file st with
                   | Some existing => existing ++ bp
                   | None => bp
                   end
                 else bp in
      mkStore (Some out) (progress_file st)
  | SaveProgress current_index _ => mkStore (results_file st) (Some current_index)
  | UpdateConversationsFile updated =>
      mkStore (option_map (fun data =>
                 overwrite_prefix data (map groq_conversation_to_dict updated))
                 (results_file st))
              (progress_file st)
  | SleepBatch | Abort => st
  end.

(** The files after the first effects of a run: a crash after [k] effects
    leaves [run_effects st (firstn k es)] on disk. *)
Definition run_effects (st : Store) (es : list Effect) : Store :=
  fold_left apply_effect es st.

(** [conversations[i][j] = v] (indices stay in range in the loops). *)
Fixpoint list_set {A : Type} (l : list A) (n : nat) (v : A) : list A :=
  match l, n with
  | [], _ => []
  | _ :: xs, O => v :: xs
  | x :: xs, S n' => x :: list_set xs n' v
  end.

(** *** [ConversationProcessor.process_conversations_concurrent] *)
Section ConvProcessor.
  (** [mapper.map_conversation]: the result, or [None] when it raises. *)
Variable mapper : Conversation -> option Conversation.
  (** Whether [future.result(timeout=120)] raised for the task of the
      conversation at this index. *)
Variable timed_out : nat -> bool.
Variable batch_size : nat.
Variable conversations : list Conversation.
Variable start_index : nat.

Definition task_result (idx : nat) (c : Conversation) : TaskResult :=
    if timed_out idx then TaskTimeout else process_conversation_sync mapper c.

  (** One iteration of the [for j, future in enumerate(futures)] loop: both
      [result['success']] branches serialize [result['conversation']] inside
      the [try]; the [except] branch serializes [batch[j]], outside any
      [try] ([None]: the exception leaves the method). *)
Definition collect_one (idx : nat) (c : Conversation) : option ConvDict :=
    let tried :=
      match task_result idx c with
      | TaskDone conv _ => conversation_to_dict conv
      | TaskTimeout => None
      end in
    match tried with
    | Some conv_dict => Some conv_dict
    | None => conversation_to_dict c
    end.

  (** [batch_processed], built over the batch starting at index [idx]. *)
Fixpoint collect_batch (idx : nat) (batch : list Conversation)
    : option (list ConvDict) :=
    match batch with
    | [] => Some []
    | c :: cs =>
        match collect_one idx c, collect_batch (S idx) cs with
        | Some d, Some ds => Some (d :: ds)
        | _, _ => None
        end
    end.

  (** The [for i in range(start_index, len(conversations), batch_size)]
      loop ([fuel] bounds the number of iterations). *)
Fixpoint conv_batches (fuel i total_processed : nat) : list Effect :=
    match fuel with
    | O => []
    | S fuel' =>
        if i <? List.length conversations then
          let batch_end := Nat.min (i + batch_size) (List.length conversations) in
          let batch := firstn (batch_end - i) (skipn i conversations) in
          match collect_batch i batch with
          | None => [Abort]
          | Some batch_processed =>
              let total_processed' := total_processed + List.length batch in
              SaveResults batch_processed
                (negb ((start_index =? 0) && (i =? 0)))
              :: SaveProgress total_processed' (List.length conversations)
              :: SleepBatch
              :: conv_batches fuel' (i + batch_size) total_processed'
          end
        else []
    end.

  (** [range] with step [0] raises [ValueError]. *)
Definition process_conversations_concurrent : list Effect :=
    if batch_size =? 0 then [Abort]
    else conv_batches (List.length conversations) start_index start_index.
End ConvProcessor.

(** *** [GroqProcessor.process_ux_and_intent_analysis] *)
Section GroqProcessor.
  (** The oracle's behaviour for the conversation at each index. *)
Variable oracle : nat -> Oracle.
Variable timed_out : nat -> bool.
Variable batch_size : nat.
  (** The conversations read by [load_conversations_from_file]. *)
Variable conversations : list Conversation.
Variable start_index : nat.

  (** [GroqMapper.map_conversation] never raises, so
      [process_conversation_sync] always reports success. *)
Definition groq_task_result (idx : nat) (c : Conversation) : TaskResult :=
    if timed_out idx then TaskTimeout
    else process_conversation_sync
           (fun c => Some (snd (map_conversation (oracle idx) c))) c.

  (** The result loop of one batch: [updated_conversations[i + j] =
      analyzed_conv] on success. *)
Fixpoint groq_collect (idx : nat) (batch : list Conversation)
    (updated : list Conversation) : list Conversation :=
    match batch with
    | [] => updated
    | c :: cs =>
        match groq_task_result idx c with
        | TaskDone analyzed_conv true =>
            groq_collect (S idx) cs (list_set updated idx analyzed_conv)
        | _ => groq_collect (S idx) cs updated
        end
    end.

Fixpoint groq_batches (fuel i total_processed : nat)
    (updated : list Conversation) : list Effect :=
    match fuel with
    | O => []
    | S fuel' =>
        if i <? List.length conversations then
          let batch_end := Nat.min (i + batch_size) (List.length conversations) in
          let batch := firstn (batch_end - i) (skipn i conversations) in
          let updated' := groq_collect i batch updated in
          let total_processed' := total_processed + List.length batch in
          SaveProgress total_processed' (List.length conversations)
          :: UpdateConversationsFile updated'
          :: SleepBatch
          :: groq_batches fuel' (i + batch_size) total_processed' updated'
        else []
    end.

Definition process_ux_and_intent_analysis : list Effect :=
    if batch_size =? 0 then [Abort]
    else groq_batches (List.length conversations) start_index start_index
           conversations.
End GroqProcessor.

(** The conversations file as [GroqProcessor] finds it. *)
Definition groq_store (conversations : list Conversation) : Store :=
  mkStore (Some (map groq_conversation_to_dict conversations)) None.

(* ------------------------------------------------------------------ *)
(** ** Concrete inputs *)

(** An event of user 1 at [t] seconds whose text is [s]. *)
Definition event (t : Z) (kind : string) (s : string) : Row :=
  mkRow 1 t kind (u s) None.

(** User 1 asks at t = 0, gets the answer at 5 min, asks again at 6 min. *)
Definition turn_log : list Row :=
  [ event 0 "request" "Q1"; event 300 "response" "A1";
    event 360 "request" "Q2" ].

(** The same three events, with the file not in time order. *)
Definition unsorted_turn_log : list Row :=
  [ event 360 "request" "Q2"; event 0 "request" "Q1";
    event 300 "response" "A1" ].

(** Two requests 40 minutes apart. *)
Definition gap_log : list Row :=
  [ event 0 "request" "Q1"; event 2400 "request" "Q2" ].

(** A conversation of user 1 with the given blocks and full text that
    lasts the given number of seconds. *)
Definition conv_with (bs : list ConvBlock) (full : string) (seconds : Z)
  : Conversation :=
  mkConversation 1 1 0 seconds (inject_Z seconds / inject_Z 60)%Q
    (List.length bs) (u full) bs [] [] None.



(** A 15-minute exchange: a request and a response. *)
Definition slow_exchange : Conversation :=
  conv_with [from_csv_block (u "Where is the report?") "request";
             from_csv_block (u "Here it is.") "response"]
    "Where is the report?" 900.


(** A request and response exchange of 31 seconds. *)
Definition exchange_31s : Conversation :=
  conv_with [from_csv_block (u "Where is the report?") "request";
             from_csv_block (u "Here it is.") "response"]
    "Where is the report?" 31.

(** A short request and response exchange of two minutes. *)
Definition sample_conversation : Conversation :=
  conv_with [from_csv_block (u "How do I reset my password?") "request";
             from_csv_block (u "Open the settings page.") "response"]
    "How do I reset my password?" 120.


Definition timeout_error : ustr := u "Request timed out.".

Definition connection_error : ustr := u "Connection error.".

Definition ux_reply : UxContent :=
  UxParsed (u "positive") (9 # 10) [u "satisfaction"] [] [] true.


(** The UX call times out; the intent call answers. *)
Definition ux_times_out : Oracle :=
  mkOracle (fun _ => ApiErr timeout_error) (fun _ => 0%Q)
           (fun _ => ApiOk (IntentString (u "technical_help"))) (fun _ => 0%Q).

(** The UX call answers; the intent call fails to connect. *)
Definition intent_connection_fails : Oracle :=
  mkOracle (fun _ => ApiOk ux_reply) (fun _ => 0%Q)
           (fun _ => ApiErr connection_error) (fun _ => 0%Q).

(** Both calls answer at the first attempt. *)
Definition answering_oracle : Oracle :=
  mkOracle (fun _ => ApiOk ux_reply) (fun _ => 0%Q)
           (fun _ => ApiOk (IntentString (u "technical_help"))) (fun _ => 0%Q).

(** The first conversation parsed from [turn_log]. *)
Definition first_turn_conversation : Conversation :=
  match parse_conversations default_time_threshold turn_log with
  | c :: _ => c
  | [] => sample_conversation
  end.

(* ------------------------------------------------------------------ *)
(** ** Auxiliary definitions of the proofs *)

(** The number of occurrences of [d] in [l]. *)
Definition count_z (d : Z) (l : list Z) : nat := List.length (filter (Z.eqb d) l).

(** The [dialogue_id] column after the users satisfying [inU] are done:
    their ids are positive and below [cur], and no id is shared by two
    of them. *)
Definition seg_inv (df : list Row) (inU : Z -> Prop) (col : list Z) (cur : Z) : Prop :=
  List.length col = List.length df /\ (1 <= cur)%Z /\
  (forall r v, In (r, v) (combine df col) -> inU (r_user_id r) -> (1 <= v < cur)%Z) /\
  (forall r1 r2 v, In (r1, v) (combine df col) -> In (r2, v) (combine df col) ->
     inU (r_user_id r1) -> inU (r_user_id r2) -> r_user_id r1 = r_user_id r2).

(** [self.problem_counts[p]] on the association list of counts. *)
Definition problem_count (p : ProblemType.t) (counts : list (ProblemType.t * nat))
  : option nat :=
  option_map snd (find (fun e => ProblemType.eqb p (fst e)) counts).

(** The number of conversations whose detected problems contain [p]. *)
Fixpoint count_with_problem (detector_threshold : Z) (p : ProblemType.t)
  (conversations : list Conversation) : nat :=
  match conversations with
  | [] => 0
  | c :: cs =>
      (if existsb (ProblemType.eqb p) (detect_problems detector_threshold c) then 1 else 0)
      + count_with_problem detector_threshold p cs
  end.

(** The conversations with at least one detected problem, paired with
    their problems. *)
Definition problem_entries (detector_threshold : Z) (conversations : list Conversation)
  : list (Z * list ProblemType.t) :=
  map (fun c => (dialogue_id c, detect_problems detector_threshold c))
    (filter (fun c => match detect_problems detector_threshold c with
                      | [] => false | _ :: _ => true end) conversations).

(** The conversation at index [j] once the Groq batches have covered the
    indices [start_index <= j < i]: analysed unless its task timed out. *)
Definition groq_expected (oracle : nat -> Oracle) (timed_out : nat -> bool)
  (start_index i j : nat) (c : Conversation) : Conversation :=
  if (start_index <=? j) && (j <? i) && negb (timed_out j)
  then snd (map_conversation (oracle j) c) else c.

(* ================================================================== *)
(** * Properties *)

(** ** Blocks *)

Lemma search_agent_some : forall names block_data a,
  search_agent names block_data = Some a <->
  exists pre name post,
    names = pre ++ (name, a) :: post /\
    contains name block_data = true /\
    forall n a', In (n, a') pre -> contains n block_data = false.
Proof.
  induction names as [| [n0 a0] rest IH]; intros block_data a; simpl.
  - split; [discriminate |].
    intros (pre & name & post & Heq & _). destruct pre; discriminate.
  - case_eq (contains n0 block_data); intros Hc.
    + split.
      * intros H; inversion H; subst.
        exists [], n0, rest. repeat split; auto. intros n a' [].
      * intros (pre & name & post & Heq & Hin & Hpre).
        destruct pre as [| p pre']; simpl in Heq; inversion Heq; subst.
        -- reflexivity.
        -- rewrite (Hpre n0 a0) in Hc; [discriminate | left; reflexivity].
    + rewrite IH. split.
      * intros (pre & name & post & Heq & Hin & Hpre).
        exists ((n0, a0) :: pre), name, post. subst. repeat split; auto.
        intros n a' [Hh | Ht]; [inversion Hh; subst; assumption | eauto].
      * intros (pre & name & post & Heq & Hin & Hpre).
        destruct pre as [| p pre']; simpl in Heq; inversion Heq; subst.
        -- rewrite Hin in Hc; discriminate.
        -- exists pre', name, post. repeat split; auto.
           intros n a' H; apply (Hpre n a'); right; exact H.
Qed.

Lemma search_agent_none : forall names block_data,
  search_agent names block_data = None <->
  forall n a, In (n, a) names -> contains n block_data = false.
Proof.
  induction names as [| [n0 a0] rest IH]; intros block_data; simpl.
  - split; [intros _ n a [] | reflexivity].
  - case_eq (contains n0 block_data); intros Hc.
    + split; [discriminate |].
      intros H; rewrite (H n0 a0) in Hc; [discriminate | left; reflexivity].
    + rewrite IH. split.
      * intros H n a [Hh | Ht]; [inversion Hh; subst; assumption | eauto].
      * intros H n a Hin; apply (H n a); right; exact Hin.
Qed.

Lemma from_csv_block_text : forall block_data csv_block_type,
  let b := from_csv_block block_data csv_block_type in
  (block_type b = BlockType.USER -> text b = block_data) /\
  (block_type b <> BlockType.USER ->
   text b = firstn 150 block_data /\ List.length (text b) <= 150).
Proof.
  intros block_data csv_block_type; unfold from_csv_block; cbv zeta.
  destruct (block_type_of_csv csv_block_type);
    cbn [BlockType.eqb block_type text];
    (split; [intros H; try discriminate; reflexivity |]);
    intros Hne; try (exfalso; apply Hne; reflexivity);
    (case_eq (150 <? List.length block_data); intros Hlt;
     [ split; [reflexivity | rewrite length_firstn; lia]
     | apply Nat.ltb_ge in Hlt; rewrite firstn_all2 by lia; split; [reflexivity | lia]]).
Qed.

(** ** Parsing *)


Lemma insert_by_perm : forall {A} (key : A -> Z) x l,
  Permutation (insert_by key x l) (x :: l).
Proof.
  intros A key x l; induction l as [| y ys IH]; simpl.
  - apply Permutation_refl.
  - destruct (key y <=? key x)%Z.
    + eapply perm_trans; [apply perm_skip, IH | apply perm_swap].
    + apply Permutation_refl.
Qed.

Lemma sort_by_perm : forall {A} (key : A -> Z) l,
  Permutation (sort_by key l) l.
Proof.
  intros A key l; induction l as [| x xs IH]; simpl.
  - apply Permutation_refl.
  - eapply perm_trans; [apply insert_by_perm | apply perm_skip, IH].
Qed.

Lemma list_min_spec : forall l x,
  (forall y, In y (x :: l) -> list_min x l <= y)%Z /\ In (list_min x l) (x :: l).
Proof.
  unfold list_min; induction l as [| z l IH]; intros x; simpl.
  - split; [intros y [<- | []]; lia | left; reflexivity].
  - destruct (IH (Z.min x z)) as [Hle Hin]. split.
    + intros y [<- | [<- | Hy]].
      * specialize (Hle (Z.min x z) (or_introl eq_refl)); lia.
      * specialize (Hle (Z.min x z) (or_introl eq_refl)); lia.
      * apply Hle; right; exact Hy.
    + destruct Hin as [Hm | Hm]; [| right; right; exact Hm].
      rewrite <- Hm. destruct (Z.min_spec x z) as [[_ ->] | [_ ->]];
        [left | right; left]; reflexivity.
Qed.

Lemma list_max_spec : forall l x,
  (forall y, In y (x :: l) -> y <= list_max x l)%Z /\ In (list_max x l) (x :: l).
Proof.
  unfold list_max; induction l as [| z l IH]; intros x; simpl.
  - split; [intros y [<- | []]; lia | left; reflexivity].
  - destruct (IH (Z.max x z)) as [Hle Hin]. split.
    + intros y [<- | [<- | Hy]].
      * specialize (Hle (Z.max x z) (or_introl eq_refl)); lia.
      * specialize (Hle (Z.max x z) (or_introl eq_refl)); lia.
      * apply Hle; right; exact Hy.
    + destruct Hin as [Hm | Hm]; [| right; right; exact Hm].
      rewrite <- Hm. destruct (Z.max_spec x z) as [[_ ->] | [_ ->]];
        [right; left | left]; reflexivity.
Qed.

Lemma in_parse_conversations : forall time_threshold df c,
  In c (parse_conversations time_threshold df) ->
  exists d, parse_dialogue (segment_conversations time_threshold df) d = Some c.
Proof.
  unfold parse_conversations; intros time_threshold df c H.
  apply in_flat_map in H as (d & _ & Hd).
  destruct (parse_dialogue _ d) eqn:E; [| destruct Hd].
  destruct Hd as [<- | []]. exists d; exact E.
Qed.

Lemma parse_dialogue_fields : forall seg d c,
  parse_dialogue seg d = Some c ->
  exists r0 rs,
    conversation_data seg d = r0 :: rs /\
    dialogue_id c = d /\
    message_count c = List.length (r0 :: rs) /\
    start_time c = list_min (r_timestamp r0) (map r_timestamp rs) /\
    end_time c = list_max (r_timestamp r0) (map r_timestamp rs) /\
    duration_minutes c = (inject_Z (end_time c - start_time c) / inject_Z 60)%Q /\
    blocks c = build_blocks [] (r0 :: rs) /\
    analysis c = None.
Proof.
  unfold parse_dialogue; intros seg d c H.
  destruct (conversation_data seg d) as [| r0 rs]; [discriminate |].
  inversion H; subst; clear H.
  exists r0, rs; repeat split.
Qed.

Lemma build_blocks_from_rows : forall rows seen b,
  In b (build_blocks seen rows) ->
  exists r, In r rows /\ b = from_csv_block (r_block_data r) (r_block_type r).
Proof.
  induction rows as [| r rows IH]; intros seen b H; simpl in H.
  - destruct H.
  - destruct (existsb (ustr_eqb (r_block_data r)) seen).
    + destruct (IH _ _ H) as (r' & Hin & ->). exists r'; split; [right |]; auto.
    + destruct H as [<- | H].
      * exists r; split; [left |]; auto.
      * destruct (IH _ _ H) as (r' & Hin & ->). exists r'; split; [right |]; auto.
Qed.

Lemma conversation_data_rows : forall time_threshold df d r,
  In r (conversation_data (segment_conversations time_threshold df) d) ->
  In r df.
Proof.
  unfold conversation_data; intros time_threshold df d r H.
  apply (Permutation_in _ (sort_by_perm _ _)) in H.
  apply in_map_iff in H as ([r' x] & <- & H).
  apply filter_In in H as [H _].
  unfold segment_conversations in H. apply in_combine_l in H. exact H.
Qed.

(** C9: every conversation built by [parse_conversations] counts all the
    events assigned to its dialogue, duplicates of block text included
    ([message_count] is the raw number of rows with that [dialogue_id]),
    and its duration is the largest minus the smallest timestamp of those
    rows, in minutes ([start_time] and [end_time] being that minimum and
    maximum). *)
Theorem parse_message_count_and_duration : forall time_threshold df c,
  In c (parse_conversations time_threshold df) ->
  let rows := map fst (filter (fun p => Z.eqb (snd p) (dialogue_id c))
                              (segment_conversations time_threshold df)) in
  message_count c = List.length rows /\
  (forall r, In r rows -> start_time c <= r_timestamp r <= end_time c)%Z /\
  (exists r, In r rows /\ r_timestamp r = start_time c) /\
  (exists r, In r rows /\ r_timestamp r = end_time c) /\
  duration_minutes c = (inject_Z (end_time c - start_time c) / inject_Z 60)%Q.
Proof.
  intros time_threshold df c Hin rows.
  destruct (in_parse_conversations _ _ _ Hin) as [d Hd].
  destruct (parse_dialogue_fields _ _ _ Hd)
    as (r0 & rs & Hdata & Hid & Hcnt & Hst & Hen & Hdur & _ & _).
  assert (Hperm : Permutation (r0 :: rs) rows).
  { unfold rows; rewrite Hid, <- Hdata; unfold conversation_data.
    apply sort_by_perm. }
  destruct (list_min_spec (map r_timestamp rs) (r_timestamp r0)) as [Hmin Hmin_in].
  destruct (list_max_spec (map r_timestamp rs) (r_timestamp r0)) as [Hmax Hmax_in].
  change (r_timestamp r0 :: map r_timestamp rs) with (map r_timestamp (r0 :: rs))
    in Hmin, Hmin_in, Hmax, Hmax_in.
  split; [| split; [| split; [| split]]].
  - rewrite Hcnt; apply Permutation_length; exact Hperm.
  - intros r Hr.
    assert (Hr' : In (r_timestamp r) (map r_timestamp (r0 :: rs))).
    { apply in_map, (Permutation_in _ (Permutation_sym Hperm)); exact Hr. }
    rewrite Hst, Hen; split; [apply Hmin | apply Hmax]; exact Hr'.
  - apply in_map_iff in Hmin_in as (r & Hr & Hrin).
    exists r; split; [apply (Permutation_in _ Hperm); exact Hrin | rewrite Hst; exact Hr].
  - apply in_map_iff in Hmax_in as (r & Hr & Hrin).
    exists r; split; [apply (Permutation_in _ Hperm); exact Hrin | rewrite Hen; exact Hr].
  - exact Hdur.
Qed.

(** C10: a block built from a raw event keeps the full text when its role
    is user, and otherwise (agent or system) stores the first 150
    characters of the raw text; hence every agent or system block of a
    parsed conversation, the text the keyword detector and the prompts
    read, is the first 150 characters of one raw event text. *)
Theorem block_text_truncated : forall block_data csv_block_type,
  (block_type (from_csv_block block_data csv_block_type) = BlockType.USER ->
   text (from_csv_block block_data csv_block_type) = block_data) /\
  (block_type (from_csv_block block_data csv_block_type) <> BlockType.USER ->
   text (from_csv_block block_data csv_block_type) = firstn 150 block_data /\
   List.length (text (from_csv_block block_data csv_block_type)) <= 150) /\
  (forall time_threshold df c b,
     In c (parse_conversations time_threshold df) -> In b (blocks c) ->
     block_type b <> BlockType.USER ->
     exists r, In r df /\ text b = firstn 150 (r_block_data r)).
Proof.
  intros block_data csv_block_type.
  destruct (from_csv_block_text block_data csv_block_type) as [Hu Hn].
  split; [exact Hu | split; [exact Hn |]].
  intros time_threshold df c b Hc Hb Hne.
  destruct (in_parse_conversations _ _ _ Hc) as [d Hd].
  destruct (parse_dialogue_fields _ _ _ Hd)
    as (r0 & rs & Hdata & _ & _ & _ & _ & _ & Hbl & _).
  rewrite Hbl in Hb. apply build_blocks_from_rows in Hb as (r & Hr & ->).
  exists r; split.
  - apply (conversation_data_rows time_threshold df d); rewrite Hdata; exact Hr.
  - apply (from_csv_block_text (r_block_data r) (r_block_type r)); exact Hne.
Qed.

(** C8: a block built from a raw event of kind request has the user role,
    of kind response the system role, and of the intermediate kind (spelled
    [intermidiat_response] in the event log) the agent role; only agent
    blocks get an agent kind, and it is the kind of the first marker of the
    fixed ordered list [agent_names] that occurs in the event text, or none
    when no marker occurs. *)
Theorem block_roles_and_agent_kind : forall block_data,
  block_type (from_csv_block block_data "request") = BlockType.USER /\
  block_type (from_csv_block block_data "response") = BlockType.SYSTEM /\
  block_type (from_csv_block block_data "intermidiat_response") = BlockType.AGENT /\
  agent_type (from_csv_block block_data "request") = None /\
  agent_type (from_csv_block block_data "response") = None /\
  (forall a,
     agent_type (from_csv_block block_data "intermidiat_response") = Some a <->
     exists pre name post,
       agent_names = pre ++ (name, a) :: post /\
       contains name block_data = true /\
       forall n a', In (n, a') pre -> contains n block_data = false) /\
  (agent_type (from_csv_block block_data "intermidiat_response") = None <->
   forall n a, In (n, a) agent_names -> contains n block_data = false).
Proof.
  intros block_data.
  split; [reflexivity |]. split; [reflexivity |]. split; [reflexivity |].
  split; [reflexivity |]. split; [reflexivity |]. split.
  - intros a; apply search_agent_some.
  - apply search_agent_none.
Qed.

(** ** Segmentation *)

Lemma assign_rest_rule : forall time_threshold rest prev current_id,
  List.length (fst (assign_rest time_threshold prev rest current_id))
    = List.length rest /\
  forall i a b x,
    nth_error (prev :: rest) i = Some a ->
    nth_error (prev :: rest) (S i) = Some b ->
    nth_error (current_id :: fst (assign_rest time_threshold prev rest current_id)) i
      = Some x ->
    nth_error (current_id :: fst (assign_rest time_threshold prev rest current_id)) (S i)
      = Some (if is_boundary time_threshold a b then x + 1 else x)%Z.
Proof.
  intros time_threshold rest; induction rest as [| r rest IH];
    intros prev current_id; simpl.
  - split; [reflexivity |]. intros i a b x _ Hb. destruct i; discriminate.
  - set (cur' := if is_boundary time_threshold prev r
                 then (current_id + 1)%Z else current_id).
    destruct (IH r cur') as [Hlen Hrule].
    destruct (assign_rest time_threshold r rest cur') as [ids last] eqn:E.
    simpl in Hlen, Hrule |- *. split; [rewrite Hlen; reflexivity |].
    intros [| i] a b x Ha Hb Hx.
    + simpl in Ha, Hb, Hx. inversion Ha; inversion Hb; inversion Hx; subst.
      reflexivity.
    + simpl in Ha, Hb, Hx. apply (Hrule i a b x Ha Hb Hx).
Qed.

(** For one user's time-sorted events, the loop of [segment_conversations]
    gives the first event the current id and moves to a new id exactly at
    the pairs where [is_boundary] holds. *)
Lemma assign_user_rule : forall time_threshold user_data current_id,
  List.length (fst (assign_user time_threshold user_data current_id))
    = List.length user_data /\
  (user_data <> [] ->
   nth_error (fst (assign_user time_threshold user_data current_id)) 0
     = Some current_id) /\
  forall i a b x,
    nth_error user_data i = Some a ->
    nth_error user_data (S i) = Some b ->
    nth_error (fst (assign_user time_threshold user_data current_id)) i = Some x ->
    nth_error (fst (assign_user time_threshold user_data current_id)) (S i)
      = Some (if is_boundary time_threshold a b then x + 1 else x)%Z.
Proof.
  intros time_threshold [| r0 rest] current_id; simpl.
  - split; [reflexivity | split; [intros H; contradiction |]].
    intros i a b x Ha; destruct i; discriminate.
  - destruct (assign_rest_rule time_threshold rest r0 current_id) as [Hlen Hrule].
    destruct (assign_rest time_threshold r0 rest current_id) as [ids last].
    simpl in *. split; [rewrite Hlen; reflexivity |].
    split; [reflexivity |]. exact Hrule.
Qed.

Lemma turn_log_two_conversations :
  map snd (segment_conversations default_time_threshold turn_log) = [1; 1; 2]%Z /\
  List.length (parse_conversations default_time_threshold turn_log) = 2 /\
  map snd (segment_conversations default_time_threshold gap_log) = [1; 2]%Z.
Proof. vm_compute. repeat split. Qed.

(** C3: on an event file that is not in time order, [segment_conversations]
    computes the ids on the time-sorted events of the user but writes them
    back to the rows in file order ([df.loc[user_mask, 'dialogue_id'] =
    dialogue_ids]).  For the events t=6min request, t=0 request, t=5min
    response (file order) of one user, in time order the ids are 1, 2, 1:
    the id changes between t=0 (request) and t=5min (response), where
    [is_boundary] does not hold, and goes back to the old id 1 between
    t=5min (response) and t=6min (request), where it holds; the parsed
    dialogue 1 holds the events at 0 and 6 min, not the one at 5 min. *)
Theorem segment_unsorted_file_misassigns_ids :
  segment_conversations default_time_threshold unsorted_turn_log =
    [ (event 360 "request" "Q2", 1%Z); (event 0 "request" "Q1", 1%Z);
      (event 300 "response" "A1", 2%Z) ] /\
  is_boundary default_time_threshold
    (event 0 "request" "Q1") (event 300 "response" "A1") = false /\
  is_boundary default_time_threshold
    (event 300 "response" "A1") (event 360 "request" "Q2") = true /\
  map (fun c => (dialogue_id c, start_time c, end_time c, message_count c))
    (parse_conversations default_time_threshold unsorted_turn_log)
    = [(1%Z, 0%Z, 360%Z, 2); (2%Z, 300%Z, 300%Z, 1)].
Proof. vm_compute. repeat split. Qed.

(** ** Keyword detection *)

Lemma keywords_kinds :
  map fst keywords =
  [ProblemType.TECHNICAL_ISSUES; ProblemType.USER_CONFUSION;
   ProblemType.SYSTEM_LIMITATIONS; ProblemType.MISSING_INFORMATION;
   ProblemType.ROUTING_ERROR].
Proof. reflexivity. Qed.


Lemma filter_nil_iff : forall {A} (f : A -> bool) l,
  filter f l = [] <-> forall x, In x l -> f x = false.
Proof.
  intros A f l; induction l as [| y l IH]; simpl.
  - split; [intros _ x [] | reflexivity].
  - destruct (f y) eqn:E; split.
    + discriminate.
    + intros H; rewrite (H y (or_introl eq_refl)) in E; discriminate.
    + intros H x [<- | Hx]; [exact E | apply IH; assumption].
    + intros H; apply IH; intros x Hx; apply H; right; exact Hx.
Qed.


Lemma in_keyword_kinds : forall k kws,
  In (k, kws) keywords -> k <> ProblemType.PERFORMANCE_LATENCY.
Proof.
  intros k kws H.
  assert (Hk : In k (map fst keywords)) by (apply (in_map fst) in H; exact H).
  rewrite keywords_kinds in Hk.
  simpl in Hk; intuition congruence.
Qed.



(** The latency test is decided on doubles: [31 / 60 * 60] evaluates to
    31.000000000000004, so a 31-second exchange is reported at a 31-second
    threshold, whereas [30 / 60 * 60] is exactly 30 and a 30-second
    exchange is not reported at a 30-second threshold. *)
Lemma latency_boundary_rounding :
  In ProblemType.PERFORMANCE_LATENCY (detect_problems 31 exchange_31s) /\
  ~ In ProblemType.PERFORMANCE_LATENCY
      (detect_problems 30
         (conv_with [from_csv_block (u "Where is the report?") "request";
                     from_csv_block (u "Here it is.") "response"]
            "Where is the report?" 30)).
Proof. vm_compute. split; [tauto | intuition discriminate]. Qed.

(** ** Retries of the Groq calls *)

Lemma retry_loop_err : forall {A R} call jitter (parse : A -> R) default
    max_retries base_delay remaining attempt e,
  call attempt = ApiErr e ->
  retry_loop call jitter parse default max_retries base_delay (S remaining) attempt =
  match handle_rate_limit_error e attempt max_retries base_delay (jitter attempt) with
  | Some w =>
      let '(evs, r) :=
        retry_loop call jitter parse default max_retries base_delay remaining (S attempt) in
      (ECall attempt :: ESleep w :: evs, r)
  | None => ([ECall attempt], default)
  end.
Proof. intros; simpl; rewrite H; reflexivity. Qed.

Lemma handle_rate_limit_error_sleeps : forall e attempt mr bd j,
  is_rate_limit_error e = true -> attempt < mr - 1 ->
  handle_rate_limit_error e attempt mr bd j =
  Some (match extract_wait_time e with
        | Some w => w
        | None => (bd * inject_Z (2 ^ Z.of_nat attempt) + j)%Q
        end).
Proof.
  intros e attempt mr bd j He Ha. unfold handle_rate_limit_error.
  rewrite He. apply Nat.ltb_lt in Ha; rewrite Ha.
  destruct (extract_wait_time e); reflexivity.
Qed.

Lemma handle_rate_limit_error_last : forall e attempt mr bd j,
  mr - 1 <= attempt -> handle_rate_limit_error e attempt mr bd j = None.
Proof.
  intros e attempt mr bd j Ha. unfold handle_rate_limit_error.
  assert (Hb : (attempt <? mr - 1) = false) by (apply Nat.ltb_ge; exact Ha).
  rewrite Hb. destruct (is_rate_limit_error e); reflexivity.
Qed.


(** [GroqMapper.map_conversation] keeps its input apart from [analysis]. *)
Lemma map_conversation_analysis : forall o c,
  snd (map_conversation o c) =
  set_analysis c (Some (mkConversationMap (snd (analyze_intent o))
                          (create_problem_detection_for_conversation c)
                          (snd (analyze_ux o)))).
Proof.
  intros o c; unfold map_conversation.
  destruct (analyze_ux o), (analyze_intent o); reflexivity.
Qed.

(** Every task the Groq processor does not time out reports success. *)
Lemma groq_task_result_success : forall oracle timed_out idx c,
  timed_out idx = false ->
  groq_task_result oracle timed_out idx c =
  TaskDone (snd (map_conversation (oracle idx) c)) true.
Proof.
  intros oracle timed_out idx c H; unfold groq_task_result.
  rewrite H; reflexivity.
Qed.

(** A parsed intent reply gives the category of its intent. *)
Lemma parse_intent_analysis_consistent : forall content,
  content <> IntentUnparsable ->
  exists i, parse_intent_analysis content =
            mkRequestCategory [get_category_for_intent i] [i].
Proof.
  intros [| | s |] H;
    [congruence | exists IntentType.GENERAL_INFO; reflexivity | |
     exists IntentType.GENERAL_INFO; reflexivity].
  simpl; destruct (IntentType.of_value s) as [i |];
    [exists i | exists IntentType.GENERAL_INFO]; reflexivity.
Qed.



(** C5 (amended). After a failed attempt, the retry loop sleeps and
    tries again exactly when the error is a rate-limit error and the
    attempt is not the last one. The sleep lasts the wait parsed from the
    error message when it has one, and [base_delay * 2 ^ attempt + jitter]
    otherwise. In every other case the loop stops without retrying and
    returns the default analysis. A task that does not time out is
    reported as a success, carrying the analysed conversation. *)
Theorem retry_step_on_error :
  (forall (A R : Type) call jitter (parse : A -> R) default max_retries
          base_delay remaining attempt e,
     call attempt = ApiErr e ->
     retry_loop call jitter parse default max_retries base_delay
       (S remaining) attempt =
     if is_rate_limit_error e && (attempt <? max_retries - 1) then
       let w := match extract_wait_time e with
                | Some w => w
                | None =>
                    (base_delay * inject_Z (2 ^ Z.of_nat attempt)
                     + jitter attempt)%Q
                end in
       let rest := retry_loop call jitter parse default max_retries
                     base_delay remaining (S attempt) in
       (ECall attempt :: ESleep w :: fst rest, snd rest)
     else ([ECall attempt], default)) /\
  (forall oracle timed_out idx c,
     timed_out idx = false ->
     groq_task_result oracle timed_out idx c =
     TaskDone (snd (map_conversation (oracle idx) c)) true).
Proof.
  split.
  - intros A R call jitter parse default mr bd remaining attempt e He.
    rewrite (retry_loop_err _ _ _ _ _ _ _ _ _ He).
    destruct (is_rate_limit_error e) eqn:Er; simpl.
    + destruct (attempt <? mr - 1) eqn:Ea.
      * apply Nat.ltb_lt in Ea.
        rewrite (handle_rate_limit_error_sleeps _ _ _ _ _ Er Ea).
        destruct (retry_loop call jitter parse default mr bd remaining (S attempt));
          reflexivity.
      * apply Nat.ltb_ge in Ea.
        rewrite (handle_rate_limit_error_last _ _ _ _ _ Ea); reflexivity.
    + unfold handle_rate_limit_error; rewrite Er; reflexivity.
  - exact groq_task_result_success.
Qed.

(** C5 (counterexample). A UX call that times out is not retried and
    yields the default UX analysis, but the conversation is not reported
    as failed: its task succeeds with an analysis attached. *)
Lemma ux_timeout_reported_as_success :
  analyze_ux ux_times_out = ([ECall 0], default_ux_analysis) /\
  groq_task_result (fun _ => ux_times_out) (fun _ => false) 0
    sample_conversation =
  TaskDone (set_analysis sample_conversation
              (Some (mkConversationMap
                       (mkRequestCategory [CategoryType.TECH_SUPPORT]
                                          [IntentType.TECHNICAL_HELP])
                       (create_problem_detection_for_conversation
                          sample_conversation)
                       default_ux_analysis))) true.
Proof. split; vm_compute; reflexivity. Qed.

(** ** Category and intent *)

(** C2 (code bug). When the intent call fails with an error that is not a
    rate limit, [map_conversation] attaches the default request category:
    category [OTHER] with intent [GENERAL_INFO]. The intent-to-category
    table maps GENERAL_INFO to INFORMATION. *)
Theorem default_request_category_off_table :
  analyze_intent intent_connection_fails =
    ([ECall 0], default_request_category) /\
  option_map cm_request
    (analysis (snd (map_conversation intent_connection_fails
                      sample_conversation))) =
    Some (mkRequestCategory [CategoryType.OTHER] [IntentType.GENERAL_INFO]) /\
  get_category_for_intent IntentType.GENERAL_INFO = CategoryType.INFORMATION /\
  CategoryType.OTHER <> CategoryType.INFORMATION.
Proof. repeat split; [vm_compute; reflexivity .. | discriminate]. Qed.

(** ** Checkpoints *)

(** [ConversationProcessor] writes the batch's results before its
    progress record. *)
Lemma conv_processor_saves_results_first :
  match process_conversations_concurrent (fun c => Some c) (fun _ => false)
          25 [sample_conversation] 0 with
  | SaveResults _ false :: SaveProgress 1 1 :: SleepBatch :: [] => True
  | _ => False
  end.
Proof. vm_compute; exact I. Qed.

(** C1 (code bug). [GroqProcessor] writes the progress record of a batch
    before it writes the batch's analyses to the conversations file. On
    one conversation whose calls all succeed, stopping after the first
    write leaves a progress index of 1 with the stored conversation still
    unanalysed; the analysis reaches the file only with the second write. *)
Theorem groq_progress_before_results :
  let es := process_ux_and_intent_analysis (fun _ => answering_oracle)
              (fun _ => false) 25 [sample_conversation] 0 in
  let analysed d := match d_analysis d with Some _ => true | None => false end in
  let st1 := run_effects (groq_store [sample_conversation]) (firstn 1 es) in
  let st2 := run_effects (groq_store [sample_conversation]) (firstn 2 es) in
  progress_file st1 = Some 1 /\
  option_map (map analysed) (results_file st1) = Some [false] /\
  option_map (map analysed) (results_file st2) = Some [true].
Proof. vm_compute; repeat split. Qed.

(** ** Records of [ConversationProcessor] *)

Definition unanalysed (c : Conversation) : bool :=
  match analysis c with None => true | Some _ => false end.

Definition results_or_nil (st : Store) : list ConvDict :=
  match results_file st with Some l => l | None => [] end.

Lemma conversation_to_dict_unanalysed : forall c,
  unanalysed c = true ->
  exists d, conversation_to_dict c = Some d /\ d_analysis d = None.
Proof.
  intros c H; unfold unanalysed in H; unfold conversation_to_dict.
  destruct (analysis c); [discriminate | eexists; split; reflexivity].
Qed.

Lemma collect_one_unanalysed : forall mapper timed_out idx c,
  unanalysed c = true -> exists d, collect_one mapper timed_out idx c = Some d.
Proof.
  intros mapper timed_out idx c H. unfold collect_one.
  destruct (match task_result mapper timed_out idx c with
            | TaskDone conv _ => conversation_to_dict conv
            | TaskTimeout => None end) as [d |]; [eexists; reflexivity |].
  destruct (conversation_to_dict_unanalysed c H) as (d & Hd & _).
  exists d; exact Hd.
Qed.

(** A failed or timed-out task is recorded by the dict of its input. *)
Lemma collect_one_failed : forall mapper timed_out idx c,
  unanalysed c = true ->
  (timed_out idx = true \/ mapper c = None) ->
  collect_one mapper timed_out idx c = conversation_to_dict c.
Proof.
  intros mapper timed_out idx c Hc [Ht | Hm]; unfold collect_one, task_result.
  - rewrite Ht; reflexivity.
  - destruct (timed_out idx); [reflexivity |].
    unfold process_conversation_sync; rewrite Hm.
    destruct (conversation_to_dict_unanalysed c Hc) as (d & Hd & _).
    rewrite Hd; reflexivity.
Qed.

Lemma collect_batch_total : forall mapper timed_out batch idx,
  forallb unanalysed batch = true ->
  exists ds, collect_batch mapper timed_out idx batch = Some ds /\
             List.length ds = List.length batch /\
             forall j c, nth_error batch j = Some c ->
               exists d, nth_error ds j = Some d /\
                         collect_one mapper timed_out (idx + j) c = Some d.
Proof.
  intros mapper timed_out batch; induction batch as [| c cs IH]; intros idx H.
  - exists []; split; [reflexivity | split; [reflexivity |]].
    intros [| j] c' Hj; discriminate.
  - simpl in H; apply andb_true_iff in H as [Hc Hcs].
    destruct (collect_one_unanalysed mapper timed_out idx c Hc) as (d & Hd).
    destruct (IH (S idx) Hcs) as (ds & Hds & Hlen & Hnth).
    exists (d :: ds); simpl; rewrite Hd, Hds.
    split; [reflexivity | split; [simpl; congruence |]].
    intros [| j] c' Hj; simpl in Hj.
    + injection Hj as <-. exists d; rewrite Nat.add_0_r; split; [reflexivity | exact Hd].
    + destruct (Hnth j c' Hj) as (d' & H1 & H2).
      exists d'; split; [exact H1 | rewrite <- Nat.add_succ_comm; exact H2].
Qed.

Lemma collect_batch_app : forall mapper timed_out l1 l2 idx ds1 ds2,
  collect_batch mapper timed_out idx l1 = Some ds1 ->
  collect_batch mapper timed_out (idx + List.length l1) l2 = Some ds2 ->
  collect_batch mapper timed_out idx (l1 ++ l2) = Some (ds1 ++ ds2).
Proof.
  intros mapper timed_out l1; induction l1 as [| c cs IH]; intros l2 idx ds1 ds2 H1 H2.
  - simpl in H1; injection H1 as <-. rewrite Nat.add_0_r in H2; exact H2.
  - simpl in H1 |- *.
    destruct (collect_one mapper timed_out idx c) as [d |]; [| discriminate].
    destruct (collect_batch mapper timed_out (S idx) cs) as [ds |] eqn:E; [| discriminate].
    injection H1 as <-.
    rewrite (IH l2 (S idx) ds ds2 E)
      by (replace (S idx + List.length cs) with (idx + List.length (c :: cs))
            by (simpl; lia); exact H2).
    reflexivity.
Qed.

Lemma in_firstn_in : forall {A} k (l : list A) x, In x (firstn k l) -> In x l.
Proof.
  intros A k l x H. rewrite <- (firstn_skipn k l). apply in_or_app; left; exact H.
Qed.

Lemma in_skipn_in : forall {A} k (l : list A) x, In x (skipn k l) -> In x l.
Proof.
  intros A k l x H. rewrite <- (firstn_skipn k l). apply in_or_app; right; exact H.
Qed.

Lemma run_effects_cons : forall st e es,
  run_effects st (e :: es) = run_effects (apply_effect st e) es.
Proof. reflexivity. Qed.

Lemma conv_batches_done : forall mapper timed_out batch_size conversations
    start_index fuel i tp,
  List.length conversations <= i ->
  conv_batches mapper timed_out batch_size conversations start_index fuel i tp = [].
Proof.
  intros mapper timed_out bs convs s [| fuel] i tp H; [reflexivity |].
  simpl. assert (Hb : (i <? List.length convs) = false) by (apply Nat.ltb_ge; exact H).
  rewrite Hb; reflexivity.
Qed.

(** The batch loop leaves in the result file what was there before (unless
    it starts a new file) followed by the records of every conversation
    from [i] on. *)
Lemma conv_batches_results : forall mapper timed_out batch_size conversations
    start_index fuel i tp st ds,
  0 < batch_size ->
  forallb unanalysed conversations = true ->
  List.length conversations - i <= fuel ->
  i < List.length conversations ->
  collect_batch mapper timed_out i (skipn i conversations) = Some ds ->
  results_file (run_effects st
    (conv_batches mapper timed_out batch_size conversations start_index fuel i tp)) =
  Some ((if negb ((start_index =? 0) && (i =? 0)) then results_or_nil st else [])
        ++ ds).
Proof.
  intros mapper timed_out bs convs s fuel.
  induction fuel as [| fuel IH]; intros i tp st ds Hbs Hall Hfuel Hi Hds; [lia |].
  simpl. assert (Hlt : (i <? List.length convs) = true) by (apply Nat.ltb_lt; exact Hi).
  rewrite Hlt.
  set (k := Nat.min (i + bs) (List.length convs) - i).
  assert (Hsplit : skipn i convs = firstn k (skipn i convs) ++ skipn (i + k) convs).
  { rewrite <- (firstn_skipn k (skipn i convs)) at 1.
    rewrite skipn_skipn, Nat.add_comm; reflexivity. }
  assert (Hallb : forallb unanalysed (firstn k (skipn i convs)) = true).
  { apply forallb_forall; intros x Hx.
    apply (proj1 (forallb_forall _ _) Hall).
    exact (in_skipn_in _ _ _ (in_firstn_in _ _ _ Hx)). }
  destruct (collect_batch_total mapper timed_out _ i Hallb) as (bp & Hbp & Hbplen & _).
  assert (Hklen : List.length (firstn k (skipn i convs)) = k).
  { rewrite length_firstn, length_skipn; unfold k; lia. }
  assert (Hallr : forallb unanalysed (skipn (i + k) convs) = true).
  { apply forallb_forall; intros x Hx.
    apply (proj1 (forallb_forall _ _) Hall).
    apply in_skipn_in in Hx; exact Hx. }
  destruct (collect_batch_total mapper timed_out _ (i + k) Hallr) as (rs & Hrs & _ & _).
  assert (Hds' : ds = bp ++ rs).
  { rewrite Hsplit in Hds.
    rewrite (collect_batch_app _ _ _ _ _ bp rs Hbp) in Hds by (rewrite Hklen; exact Hrs).
    injection Hds as <-; reflexivity. }
  rewrite Hbp, !run_effects_cons. subst ds.
  set (st1 := apply_effect (apply_effect (apply_effect st
                (SaveResults bp (negb ((s =? 0) && (i =? 0)))))
                (SaveProgress (tp + List.length (firstn k (skipn i convs)))
                   (List.length convs))) SleepBatch).
  assert (Hst1 : results_or_nil st1 =
                 (if negb ((s =? 0) && (i =? 0)) then results_or_nil st else []) ++ bp).
  { unfold st1, results_or_nil; simpl.
    destruct (negb ((s =? 0) && (i =? 0))); [destruct (results_file st) |]; reflexivity. }
  destruct (Nat.lt_ge_cases (i + bs) (List.length convs)) as [Hmore | Hend].
  - assert (Hk : k = bs) by (unfold k; lia).
    assert (Hflag : negb ((s =? 0) && (i + bs =? 0)) = true).
    { destruct (i + bs) eqn:E; [lia | rewrite andb_false_r; reflexivity]. }
    rewrite (IH (i + bs) _ st1 rs Hbs Hall) by (try lia; rewrite <- Hk; exact Hrs).
    rewrite Hflag, Hst1, app_assoc; reflexivity.
  - rewrite conv_batches_done by exact Hend.
    assert (Hk : i + k = List.length convs) by (unfold k; lia).
    rewrite Hk, skipn_all in Hrs. simpl in Hrs. injection Hrs as <-.
    unfold run_effects; simpl fold_left.
    unfold st1; simpl.
    destruct (negb ((s =? 0) && (i =? 0)));
      [unfold results_or_nil; destruct (results_file st) |];
      rewrite ?app_nil_r; reflexivity.
Qed.

(** C6. Take a [ConversationProcessor] run with a positive batch size,
    over conversations loaded without analysis and resumed at
    [start_index]. The result file ends with one record per conversation
    from [start_index] on, in order. A first run starts a new file; a
    resumed run appends to the file it finds. The record of a conversation
    whose task timed out or whose mapper raised is that conversation's own
    dict, with a null [analysis]. *)
Theorem conv_processor_records_every_conversation :
  forall mapper timed_out batch_size conversations start_index st0,
  0 < batch_size ->
  forallb unanalysed conversations = true ->
  start_index < List.length conversations ->
  let st := run_effects st0 (process_conversations_concurrent mapper timed_out
                               batch_size conversations start_index) in
  exists recs,
    results_file st =
      Some ((if start_index =? 0 then [] else results_or_nil st0) ++ recs) /\
    List.length recs = List.length conversations - start_index /\
    forall j c, start_index <= j -> nth_error conversations j = Some c ->
      exists d, nth_error recs (j - start_index) = Some d /\
        ((timed_out j = true \/ mapper c = None) ->
         conversation_to_dict c = Some d /\ d_analysis d = None).
Proof.
  intros mapper timed_out bs convs s st0 Hbs Hall Hs st.
  assert (Hsuf : forallb unanalysed (skipn s convs) = true).
  { apply forallb_forall; intros x Hx.
    apply (proj1 (forallb_forall _ _) Hall). exact (in_skipn_in _ _ _ Hx). }
  destruct (collect_batch_total mapper timed_out _ s Hsuf) as (ds & Hds & Hlen & Hnth).
  exists ds; split; [| split].
  - unfold st, process_conversations_concurrent.
    assert (Hb : (bs =? 0) = false) by (apply Nat.eqb_neq; lia).
    rewrite Hb.
    rewrite (conv_batches_results mapper timed_out bs convs s _ s s st0 ds Hbs Hall)
      by (try lia; exact Hds).
    destruct (s =? 0); reflexivity.
  - rewrite Hlen, length_skipn; reflexivity.
  - intros j c Hj Hc.
    assert (Hc' : nth_error (skipn s convs) (j - s) = Some c).
    { rewrite nth_error_skipn. replace (s + (j - s)) with j by lia. exact Hc. }
    destruct (Hnth _ _ Hc') as (d & Hd & Hone).
    exists d; split; [exact Hd |]. intros Hfail.
    replace (s + (j - s)) with j in Hone by lia.
    assert (Hu : unanalysed c = true).
    { apply (proj1 (forallb_forall _ _) Hall). exact (nth_error_In _ _ Hc). }
    rewrite (collect_one_failed mapper timed_out j c Hu Hfail) in Hone.
    split; [exact Hone |].
    destruct (conversation_to_dict_unanalysed c Hu) as (d' & Hd' & Ha).
    rewrite Hone in Hd'; injection Hd' as ->; exact Ha.
Qed.

(** ** Witnesses *)

Lemma parse_message_count_and_duration_witness :
  In first_turn_conversation (parse_conversations default_time_threshold turn_log) /\
  let rows := map fst (filter (fun p => Z.eqb (snd p) (dialogue_id first_turn_conversation))
                              (segment_conversations default_time_threshold turn_log)) in
  message_count first_turn_conversation = List.length rows /\
  (forall r, In r rows ->
     start_time first_turn_conversation <= r_timestamp r <= end_time first_turn_conversation)%Z /\
  (exists r, In r rows /\ r_timestamp r = start_time first_turn_conversation) /\
  (exists r, In r rows /\ r_timestamp r = end_time first_turn_conversation) /\
  duration_minutes first_turn_conversation =
    (inject_Z (end_time first_turn_conversation - start_time first_turn_conversation)
     / inject_Z 60)%Q.
Proof.
  assert (Hin : In first_turn_conversation
                  (parse_conversations default_time_threshold turn_log))
    by (vm_compute; left; reflexivity).
  exact (conj Hin (parse_message_count_and_duration _ _ _ Hin)).
Defined.


Lemma retry_step_on_error_witness :
  retry_loop (ux_call ux_times_out) (ux_jitter ux_times_out) parse_ux_analysis
    default_ux_analysis max_retries base_delay 3 0 = ([ECall 0], default_ux_analysis) /\
  groq_task_result (fun _ => ux_times_out) (fun _ => false) 0 sample_conversation =
    TaskDone (snd (map_conversation ux_times_out sample_conversation)) true.
Proof.
  split.
  - rewrite (proj1 retry_step_on_error _ _ (ux_call ux_times_out)
               (ux_jitter ux_times_out) parse_ux_analysis default_ux_analysis
               max_retries base_delay 2 0 timeout_error eq_refl).
    vm_compute; reflexivity.
  - exact (proj2 retry_step_on_error (fun _ => ux_times_out) (fun _ => false) 0
             sample_conversation eq_refl).
Defined.

Lemma conv_processor_records_every_conversation_witness :
  let convs := [sample_conversation; slow_exchange] in
  let st := run_effects empty_store
              (process_conversations_concurrent (fun _ => None) (fun j => j =? 1)
                 1 convs 0) in
  exists recs,
    results_file st = Some ((if 0 =? 0 then [] else results_or_nil empty_store) ++ recs) /\
    List.length recs = List.length convs - 0 /\
    forall j c, 0 <= j -> nth_error convs j = Some c ->
      exists d, nth_error recs (j - 0) = Some d /\
        (((j =? 1) = true \/ (fun _ : Conversation => @None Conversation) c = None) ->
         conversation_to_dict c = Some d /\ d_analysis d = None).
Proof.
  apply (conv_processor_records_every_conversation (fun _ => None) (fun j => j =? 1)
           1 [sample_conversation; slow_exchange] 0 empty_store).
  - lia.
  - vm_compute; reflexivity.
  - simpl; lia.
Defined.

(* ================================================================== *)
(** * Further properties of the code *)

(** ** Parsing *)

Lemma unique_from_in : forall l seen d,
  In d (unique_from seen l) -> ~ In d seen /\ In d l.
Proof.
  induction l as [| x xs IH]; intros seen d H; simpl in H; [destruct H |].
  destruct (existsb (Z.eqb x) seen) eqn:E.
  - destruct (IH _ _ H) as [H1 H2]; split; [exact H1 | right; exact H2].
  - destruct H as [-> | H].
    + split; [| left; reflexivity].
      intros Hin. assert (existsb (Z.eqb d) seen = true)
        by (apply existsb_exists; exists d; split; [exact Hin | apply Z.eqb_refl]).
      congruence.
    + destruct (IH _ _ H) as [H1 H2]; split; [intros Hs; apply H1; right; exact Hs | right; exact H2].
Qed.

Lemma unique_from_nodup : forall l seen, NoDup (unique_from seen l).
Proof.
  induction l as [| x xs IH]; intros seen; simpl; [constructor |].
  destruct (existsb (Z.eqb x) seen); [apply IH |].
  constructor; [| apply IH].
  intros H; apply unique_from_in in H as [H _]; apply H; left; reflexivity.
Qed.

Lemma existsb_eqb_iff : forall x seen, existsb (Z.eqb x) seen = true <-> In x seen.
Proof.
  intros x seen; rewrite existsb_exists; split.
  - intros (y & Hy & E); apply Z.eqb_eq in E; subst; exact Hy.
  - intros H; exists x; split; [exact H | apply Z.eqb_refl].
Qed.

Lemma filter_len_add : forall {A} (f g h : A -> bool) l,
  (forall y, In y l ->
     (if f y then 1 else 0) + (if g y then 1 else 0) = (if h y then 1 else 0)) ->
  List.length (filter f l) + List.length (filter g l) = List.length (filter h l).
Proof.
  intros A f g h l; induction l as [| y ys IH]; intros H; simpl; [reflexivity |].
  pose proof (H y (or_introl eq_refl)) as Hy.
  assert (IH' := IH (fun z Hz => H z (or_intror Hz))).
  destruct (f y), (g y), (h y); simpl in *; lia.
Qed.

Lemma count_split : forall xs x seen,
  ~ In x seen ->
  count_z x xs + List.length (filter (fun y => negb (existsb (Z.eqb y) (x :: seen))) xs) =
  List.length (filter (fun y => negb (existsb (Z.eqb y) seen)) xs).
Proof.
  intros xs x seen Hx; unfold count_z; apply filter_len_add; intros y _.
  simpl. destruct (Z.eqb x y) eqn:E1.
  - apply Z.eqb_eq in E1; subst y. rewrite Z.eqb_refl.
    destruct (existsb (Z.eqb x) seen) eqn:E3; [apply existsb_eqb_iff in E3; contradiction |].
    reflexivity.
  - rewrite Z.eqb_sym, E1. destruct (existsb (Z.eqb y) seen); reflexivity.
Qed.

Lemma sum_counts_unique_from : forall l seen,
  list_sum (map (fun d => count_z d l) (unique_from seen l)) =
  List.length (filter (fun y => negb (existsb (Z.eqb y) seen)) l).
Proof.
  induction l as [| x xs IH]; intros seen; simpl; [reflexivity |].
  assert (Hstep : forall seen', (forall d, In d (unique_from seen' xs) -> d <> x) ->
            map (fun d => count_z d (x :: xs)) (unique_from seen' xs) =
            map (fun d => count_z d xs) (unique_from seen' xs)).
  { intros seen' Hne; apply map_ext_in; intros d Hd; unfold count_z; simpl.
    destruct (Z.eqb d x) eqn:E; [apply Z.eqb_eq in E; exfalso; exact (Hne d Hd E) | reflexivity]. }
  destruct (existsb (Z.eqb x) seen) eqn:E; simpl.
  - rewrite Hstep; [apply IH |].
    intros d Hd ->. apply unique_from_in in Hd as [Hd _].
    apply Hd, existsb_eqb_iff; exact E.
  - rewrite Hstep.
    + rewrite IH. unfold count_z at 1; simpl; rewrite Z.eqb_refl; simpl.
      f_equal. apply count_split.
      intros Hin; apply existsb_eqb_iff in Hin; congruence.
    + intros d Hd ->. apply unique_from_in in Hd as [Hd _]. apply Hd; left; reflexivity.
Qed.

Lemma sum_counts_unique : forall l,
  list_sum (map (fun d => count_z d l) (unique l)) = List.length l.
Proof.
  intros l; unfold unique; rewrite sum_counts_unique_from.
  simpl; rewrite filter_true; reflexivity.
Qed.

Lemma loc_assign_length : forall mask rows col vals,
  List.length (loc_assign mask rows col vals) = List.length col.
Proof.
  intros mask rows; induction rows as [| r rs IH]; intros col vals;
    destruct col as [| c cs]; simpl; try reflexivity.
  destruct (mask r); [destruct vals |]; simpl; rewrite IH; reflexivity.
Qed.

Lemma segment_users_length : forall time_threshold df users col cur,
  List.length (segment_users time_threshold df users col cur) = List.length col.
Proof.
  intros time_threshold df users; induction users as [| uid us IH]; intros col cur;
    simpl; [reflexivity |].
  destruct (assign_user _ _ _) as [ids last]. rewrite IH, loc_assign_length; reflexivity.
Qed.

Lemma segment_conversations_length : forall time_threshold df,
  List.length (segment_conversations time_threshold df) = List.length df.
Proof.
  intros; unfold segment_conversations.
  rewrite length_combine, segment_users_length, repeat_length; lia.
Qed.

Lemma parse_dialogue_count : forall seg d,
  list_sum (map message_count (match parse_dialogue seg d with
                               | Some c => [c] | None => [] end)) =
  count_z d (map snd seg).
Proof.
  intros seg d.
  assert (Hlen : List.length (conversation_data seg d) = count_z d (map snd seg)).
  { unfold conversation_data, count_z.
    rewrite (Permutation_length (sort_by_perm _ _)), length_map.
    induction seg as [| [r x] seg IH]; simpl; [reflexivity |].
    rewrite (Z.eqb_sym x d). destruct (Z.eqb d x); simpl; rewrite ?IH; reflexivity. }
  destruct (parse_dialogue seg d) as [c |] eqn:E.
  - destruct (parse_dialogue_fields _ _ _ E) as (r0 & rs & Hd & _ & Hm & _).
    simpl. rewrite Hm, <- Hd, Hlen. lia.
  - unfold parse_dialogue in E. destruct (conversation_data seg d) eqn:Ed; [| discriminate].
    rewrite <- Hlen; try rewrite Ed; reflexivity.
Qed.

Lemma list_sum_flat_map : forall {B} (f : B -> list Conversation) (l : list B),
  list_sum (map message_count (flat_map f l)) =
  list_sum (map (fun d => list_sum (map message_count (f d))) l).
Proof.
  intros B f l; induction l as [| d l IH]; simpl; [reflexivity |].
  rewrite map_app, list_sum_app, IH; reflexivity.
Qed.

Lemma parse_total_messages : forall time_threshold df,
  list_sum (map message_count (parse_conversations time_threshold df)) = List.length df.
Proof.
  intros time_threshold df; unfold parse_conversations.
  rewrite list_sum_flat_map.
  erewrite map_ext by (intros d; apply parse_dialogue_count).
  rewrite sum_counts_unique, length_map, segment_conversations_length; reflexivity.
Qed.

Lemma length_le_sum_message_count : forall l,
  (forall c, In c l -> 1 <= message_count c) ->
  List.length l <= list_sum (map message_count l).
Proof.
  induction l as [| c l IH]; intros H; simpl; [lia |].
  assert (H1 := H c (or_introl eq_refl)).
  assert (H2 := IH (fun x Hx => H x (or_intror Hx))). lia.
Qed.

(** [get_conversation_stats] of the parsed conversations: empty exactly on
    an empty log, and otherwise its [total_messages] is the number of rows
    of the log, every row being counted in exactly one conversation. *)
Theorem conversation_stats_total_messages : forall time_threshold df,
  match get_conversation_stats (parse_conversations time_threshold df) with
  | None => df = []
  | Some stats => stats_total_messages stats = List.length df /\
                  1 <= stats_total_conversations stats <= List.length df
  end.
Proof.
  intros time_threshold df.
  pose proof (parse_total_messages time_threshold df) as Hs.
  unfold get_conversation_stats.
  destruct (parse_conversations time_threshold df) as [| c cs] eqn:E.
  - simpl in Hs. destruct df; [reflexivity | discriminate].
  - simpl. split; [exact Hs |]. split; [lia |].
    rewrite <- Hs. apply (length_le_sum_message_count (c :: cs)).
    intros c' Hc'. rewrite <- E in Hc'.
    apply in_parse_conversations in Hc' as (d & Hd).
    destruct (parse_dialogue_fields _ _ _ Hd) as (r0 & rs & _ & _ & Hm & _).
    rewrite Hm; simpl; lia.
Qed.

Lemma flat_map_ids : forall (f : Z -> option Conversation) l i,
  (forall d c, f d = Some c -> dialogue_id c = d) ->
  In i (map dialogue_id (flat_map (fun d => match f d with Some c => [c] | None => [] end) l)) ->
  In i l.
Proof.
  intros f l i Hf H. apply in_map_iff in H as (c & <- & H).
  apply in_flat_map in H as (d & Hd & Hc).
  destruct (f d) as [c' |] eqn:E; [| destruct Hc].
  destruct Hc as [<- | []]. rewrite (Hf _ _ E); exact Hd.
Qed.

(** [parse_conversations] builds at most one conversation per dialogue
    id: the ids of the conversations it returns are pairwise distinct. *)
Theorem parse_dialogue_ids_distinct : forall time_threshold df,
  NoDup (map dialogue_id (parse_conversations time_threshold df)).
Proof.
  intros time_threshold df; unfold parse_conversations.
  set (seg := segment_conversations time_threshold df).
  assert (Hf : forall d c, parse_dialogue seg d = Some c -> dialogue_id c = d).
  { intros d c H. destruct (parse_dialogue_fields _ _ _ H) as (_ & _ & _ & Hd & _); exact Hd. }
  generalize (unique_from_nodup (map snd seg) []). unfold unique.
  induction (unique_from [] (map snd seg)) as [| d l IH]; intros Hnd; simpl; [constructor |].
  inversion Hnd as [| ? ? Hnotin Hnd']; subst.
  destruct (parse_dialogue seg d) as [c |] eqn:E; simpl; [| apply IH; exact Hnd'].
  constructor; [| apply IH; exact Hnd'].
  rewrite (Hf _ _ E). intros Hin. apply Hnotin.
  exact (flat_map_ids (parse_dialogue seg) l d Hf Hin).
Qed.

Lemma assign_rest_range : forall time_threshold rest prev cur ids last,
  assign_rest time_threshold prev rest cur = (ids, last) ->
  (cur <= last)%Z /\ List.length ids = List.length rest /\
  (forall v, In v ids -> cur <= v <= last)%Z.
Proof.
  intros time_threshold rest; induction rest as [| row rest' IH];
    intros prev cur ids last H; simpl in H.
  - injection H as <- <-. split; [lia | split; [reflexivity | intros v []]].
  - set (cur' := if is_boundary time_threshold prev row then (cur + 1)%Z else cur) in H.
    assert (Hc : (cur <= cur' <= cur + 1)%Z)
      by (unfold cur'; destruct (is_boundary _ _ _); lia).
    destruct (assign_rest time_threshold row rest' cur') as [ids' last'] eqn:E.
    injection H as <- <-.
    destruct (IH _ _ _ _ E) as (Hle & Hlen & Hin).
    split; [lia | split; [simpl; congruence |]].
    intros v [<- | Hv]; [lia | specialize (Hin v Hv); lia].
Qed.

Lemma assign_user_range : forall time_threshold user_data cur ids last,
  assign_user time_threshold user_data cur = (ids, last) ->
  (cur <= last)%Z /\ List.length ids = List.length user_data /\
  (forall v, In v ids -> cur <= v <= last)%Z.
Proof.
  intros time_threshold [| r0 rest] cur ids last H; simpl in H.
  - injection H as <- <-. split; [lia | split; [reflexivity | intros v []]].
  - destruct (assign_rest time_threshold r0 rest cur) as [ids' last'] eqn:E.
    injection H as <- <-.
    destruct (assign_rest_range _ _ _ _ _ _ E) as (Hle & Hlen & Hin).
    split; [lia | split; [simpl; congruence |]].
    intros v [<- | Hv]; [lia | exact (Hin v Hv)].
Qed.

Lemma loc_assign_in : forall mask rows col vals r v,
  List.length rows = List.length col ->
  List.length vals = List.length (filter mask rows) ->
  In (r, v) (combine rows (loc_assign mask rows col vals)) ->
  if mask r then In v vals else In (r, v) (combine rows col).
Proof.
  intros mask rows; induction rows as [| r' rs IH]; intros col vals r v Hl Hv H;
    destruct col as [| c cs]; try discriminate; simpl in H.
  - destruct H.
  - simpl in Hl, Hv. injection Hl as Hl.
    destruct (mask r') eqn:Em.
    + destruct vals as [| v' vs]; [discriminate |]. simpl in Hv; injection Hv as Hv.
      simpl in H. destruct H as [He | H].
      * injection He as <- <-. rewrite Em; left; reflexivity.
      * specialize (IH cs vs r v Hl Hv H).
        destruct (mask r); [right; exact IH | right; exact IH].
    + simpl in H. destruct H as [He | H].
      * injection He as <- <-. rewrite Em; left; reflexivity.
      * specialize (IH cs vals r v Hl Hv H).
        destruct (mask r); [exact IH | right; exact IH].
Qed.

Section SegmentInvariant.
Variable time_threshold : Z.
Variable df : list Row.

Lemma seg_inv_step : forall inU col cur uid ids last,
  seg_inv df inU col cur ->
  assign_user time_threshold
    (sort_by r_timestamp (filter (fun r => Z.eqb (r_user_id r) uid) df)) cur = (ids, last) ->
  seg_inv df (fun z => z = uid \/ inU z)
    (loc_assign (fun r => Z.eqb (r_user_id r) uid) df col ids) (last + 1)%Z.
Proof.
  intros inU col cur uid ids last (Hlen & Hcur & Hrange & Hsame) Ha.
  destruct (assign_user_range _ _ _ _ _ Ha) as (Hle & Hids & Hin).
  rewrite (Permutation_length (sort_by_perm _ _)) in Hids.
  assert (Hloc : forall r v,
            In (r, v) (combine df (loc_assign (fun r => Z.eqb (r_user_id r) uid) df col ids)) ->
            (r_user_id r = uid /\ (cur <= v <= last)%Z) \/
            (r_user_id r <> uid /\ In (r, v) (combine df col))).
  { intros r v H. pose proof (loc_assign_in _ _ _ _ r v (eq_sym Hlen) Hids H) as H'.
    simpl in H'. destruct (Z.eqb (r_user_id r) uid) eqn:E.
    - left; split; [apply Z.eqb_eq; exact E | exact (Hin v H')].
    - right; split; [apply Z.eqb_neq; exact E | exact H']. }
  split; [rewrite loc_assign_length; exact Hlen |].
  split; [lia |]. split.
  - intros r v H Hu. destruct (Hloc r v H) as [[_ Hv] | [Hne Hold]]; [lia |].
    destruct Hu as [Hu | Hu]; [contradiction |].
    specialize (Hrange r v Hold Hu); lia.
  - intros r1 r2 v H1 H2 Hu1 Hu2.
    destruct (Hloc r1 v H1) as [[E1 Hv1] | [N1 O1]];
      destruct (Hloc r2 v H2) as [[E2 Hv2] | [N2 O2]].
    + congruence.
    + destruct Hu2 as [Hu2 | Hu2]; [contradiction |].
      specialize (Hrange r2 v O2 Hu2); lia.
    + destruct Hu1 as [Hu1 | Hu1]; [contradiction |].
      specialize (Hrange r1 v O1 Hu1); lia.
    + destruct Hu1 as [Hu1 | Hu1]; [contradiction |].
      destruct Hu2 as [Hu2 | Hu2]; [contradiction |].
      exact (Hsame r1 r2 v O1 O2 Hu1 Hu2).
Qed.

Lemma seg_inv_users : forall users inU col cur,
  seg_inv df inU col cur ->
  exists cur', seg_inv df (fun z => In z users \/ inU z)
                 (segment_users time_threshold df users col cur) cur'.
Proof.
  induction users as [| uid us IH]; intros inU col cur Hinv; simpl.
  - exists cur. destruct Hinv as (H1 & H2 & H3 & H4).
    split; [exact H1 | split; [exact H2 | split]].
    + intros r v H [[] | Hu]; exact (H3 r v H Hu).
    + intros r1 r2 v Ha Hb [[] | Hu1] [[] | Hu2]; exact (H4 r1 r2 v Ha Hb Hu1 Hu2).
  - destruct (assign_user time_threshold _ cur) as [ids last] eqn:Ea.
    destruct (IH _ _ _ (seg_inv_step inU col cur uid ids last Hinv Ea)) as (cur' & Hfin).
    exists cur'. destruct Hfin as (H1 & H2 & H3 & H4).
    assert (Heq : forall z, (In z us \/ z = uid \/ inU z) <-> ((uid = z \/ In z us) \/ inU z))
      by (intros z; split; intros; intuition congruence).
    split; [exact H1 | split; [exact H2 | split]].
    + intros r v H Hu. apply (H3 r v H). apply Heq; exact Hu.
    + intros r1 r2 v Ha Hb Hu1 Hu2. apply (H4 r1 r2 v Ha Hb); apply Heq; assumption.
Qed.
End SegmentInvariant.

Lemma unique_from_complete : forall l seen x,
  In x l -> In x seen \/ In x (unique_from seen l).
Proof.
  induction l as [| y ys IH]; intros seen x H; [destruct H |]; simpl.
  destruct (existsb (Z.eqb y) seen) eqn:E.
  - destruct H as [<- | H]; [left; apply existsb_eqb_iff; exact E | exact (IH _ _ H)].
  - destruct H as [<- | H]; [right; left; reflexivity |].
    destruct (IH (y :: seen) x H) as [[<- | Hs] | Hu];
      [right; left; reflexivity | left; exact Hs | right; right; exact Hu].
Qed.

(** Segmentation never merges two users: every row gets a dialogue id of
    at least 1, two rows with the same dialogue id belong to the same user,
    and every conversation built by [parse_conversations] has as
    [user_id] the user of every row of its dialogue. *)
Theorem segment_ids_per_user : forall time_threshold df,
  let seg := segment_conversations time_threshold df in
  (forall r d, In (r, d) seg -> (1 <= d)%Z) /\
  (forall r1 r2 d, In (r1, d) seg -> In (r2, d) seg -> r_user_id r1 = r_user_id r2) /\
  (forall c r, In c (parse_conversations time_threshold df) ->
     In r (conversation_data seg (dialogue_id c)) -> r_user_id r = user_id c).
Proof.
  intros time_threshold df seg.
  assert (H0 : seg_inv df (fun _ => False) (repeat 0%Z (List.length df)) 1%Z).
  { split; [apply repeat_length | split; [lia | split; [intros r v _ [] | intros r1 r2 v _ _ []]]]. }
  destruct (seg_inv_users time_threshold df (unique (map r_user_id df)) _ _ _ H0)
    as (cur' & _ & _ & Hrange & Hsame).
  assert (Hu : forall r d, In (r, d) seg ->
             In (r_user_id r) (unique (map r_user_id df)) \/ False).
  { intros r d H. left. apply in_combine_l in H.
    destruct (unique_from_complete (map r_user_id df) [] (r_user_id r)
                (in_map _ _ _ H)) as [[] | Hx]; exact Hx. }
  assert (Hsame' : forall r1 r2 d, In (r1, d) seg -> In (r2, d) seg ->
                     r_user_id r1 = r_user_id r2).
  { intros r1 r2 d H1 H2. exact (Hsame r1 r2 d H1 H2 (Hu _ _ H1) (Hu _ _ H2)). }
  split; [| split; [exact Hsame' |]].
  - intros r d H. specialize (Hrange r d H (Hu _ _ H)); lia.
  - intros c r Hc Hr.
    destruct (in_parse_conversations _ _ _ Hc) as (d & Hd).
    destruct (parse_dialogue_fields _ _ _ Hd) as (r0 & rs & Hdata & Hid & _).
    assert (Hrow : forall x, In x (conversation_data seg d) -> In (x, d) seg).
    { intros x Hx. unfold conversation_data in Hx.
      apply (Permutation_in _ (sort_by_perm _ _)) in Hx.
      apply in_map_iff in Hx as ([x' e] & Hx' & Hx). simpl in Hx'; subst x'.
      apply filter_In in Hx as [Hx He]. simpl in He. apply Z.eqb_eq in He; subst e; exact Hx. }
    rewrite Hid in Hr.
    assert (Hu0 : user_id c = r_user_id r0).
    { unfold parse_dialogue in Hd. rewrite Hdata in Hd. injection Hd as <-; reflexivity. }
    rewrite Hu0. apply (Hsame' r r0 d (Hrow r Hr)). apply Hrow; unfold seg; rewrite Hdata; left; reflexivity.
Qed.

Lemma build_blocks_length : forall rows seen,
  List.length (build_blocks seen rows) <= List.length rows.
Proof.
  induction rows as [| r rows IH]; intros seen; simpl; [lia |].
  destruct (existsb (ustr_eqb (r_block_data r)) seen); simpl;
    [specialize (IH seen) | specialize (IH (r_block_data r :: seen))]; lia.
Qed.

(** Every parsed conversation spans its rows: [start_time] and [end_time]
    are the earliest and latest timestamps among the rows of its dialogue,
    so the duration is never negative, and it has at least one block and
    no more blocks than messages. *)
Theorem parsed_conversation_bounds : forall time_threshold df c,
  In c (parse_conversations time_threshold df) ->
  let rows := conversation_data (segment_conversations time_threshold df) (dialogue_id c) in
  (forall r, In r rows -> (start_time c <= r_timestamp r <= end_time c)%Z) /\
  In (start_time c) (map r_timestamp rows) /\ In (end_time c) (map r_timestamp rows) /\
  (0 <= duration_minutes c)%Q /\
  1 <= List.length (blocks c) <= message_count c.
Proof.
  intros time_threshold df c Hc rows.
  destruct (in_parse_conversations _ _ _ Hc) as (d & Hd).
  destruct (parse_dialogue_fields _ _ _ Hd)
    as (r0 & rs & Hdata & Hid & Hcount & Hstart & Hend & Hdur & Hbl & _).
  assert (Hrows : rows = r0 :: rs) by (unfold rows; rewrite Hid; exact Hdata).
  destruct (list_min_spec (map r_timestamp rs) (r_timestamp r0)) as [Hmin Hmin_in].
  destruct (list_max_spec (map r_timestamp rs) (r_timestamp r0)) as [Hmax Hmax_in].
  assert (Hts : forall r, In r (r0 :: rs) -> In (r_timestamp r) (r_timestamp r0 :: map r_timestamp rs))
    by (intros r Hr; change (In (r_timestamp r) (map r_timestamp (r0 :: rs))); apply in_map; exact Hr).
  assert (Hle : (start_time c <= end_time c)%Z).
  { rewrite Hstart, Hend. apply Z.le_trans with (r_timestamp r0);
      [apply Hmin | apply Hmax]; left; reflexivity. }
  rewrite Hrows. split; [| split; [| split; [| split]]].
  - intros r Hr. rewrite Hstart, Hend. split; [apply Hmin | apply Hmax]; apply Hts; exact Hr.
  - rewrite Hstart. exact Hmin_in.
  - rewrite Hend. exact Hmax_in.
  - rewrite Hdur. unfold Qdiv. apply Qmult_le_0_compat.
    + change 0%Q with (inject_Z 0). rewrite <- Zle_Qle. lia.
    + vm_compute. discriminate.
  - rewrite Hcount, Hbl. simpl.
    pose proof (build_blocks_length rs [r_block_data r0]). lia.
Qed.

(** ** Conversation helpers *)

Lemma agent_set_spec : forall bs acc,
  NoDup acc ->
  NoDup (agent_set acc bs) /\
  (forall a, In a (agent_set acc bs) <->
     In a acc \/ exists b, In b bs /\ block_type b = BlockType.AGENT /\ agent_type b = Some a).
Proof.
  induction bs as [| b bs IH]; intros acc Hnd; simpl.
  - split; [apply NoDup_rev; exact Hnd |].
    intros a; rewrite <- in_rev. split; [left; exact H | intros [H | (b & [] & _)]; exact H].
  - assert (Hstep : forall acc', NoDup acc' ->
              (forall a, In a acc' <-> In a acc \/
                 (block_type b = BlockType.AGENT /\ agent_type b = Some a)) ->
              NoDup (agent_set acc' bs) /\
              (forall a, In a (agent_set acc' bs) <->
                 In a acc \/ exists b', In b' (b :: bs) /\
                   block_type b' = BlockType.AGENT /\ agent_type b' = Some a)).
    { intros acc' Hnd' Hacc. destruct (IH acc' Hnd') as [H1 H2]. split; [exact H1 |].
      intros a. rewrite H2, Hacc. split.
      - intros [[H | H] | (b' & Hb' & H)];
          [left; exact H | right; exists b; split; [left; reflexivity | exact H]
          | right; exists b'; split; [right; exact Hb' | exact H]].
      - intros [H | (b' & [<- | Hb'] & H)];
          [left; left; exact H | left; right; exact H | right; exists b'; split; [exact Hb' | exact H]]. }
    destruct (block_type b) eqn:Et; destruct (agent_type b) as [a0 |] eqn:Ea;
      try (apply Hstep; [exact Hnd | intros a; split;
             [intros H; left; exact H | intros [H | [H1 H2]]; [exact H | discriminate]]]).
    destruct (in_dec AgentType.eq_dec a0 acc) as [Hin | Hin]; apply Hstep.
    + exact Hnd.
    + intros a; split; [intros H; left; exact H |].
      intros [H | [_ H]]; [exact H | injection H as <-; exact Hin].
    + constructor; assumption.
    + intros a; split.
      * intros [<- | H]; [right; split; reflexivity | left; exact H].
      * intros [H | [_ H]]; [right; exact H | injection H as <-; left; reflexivity].
Qed.

(** The [agent_types] of a parsed conversation, computed by
    [update_agent_types], hold each agent type exactly when some AGENT
    block of the conversation carries it, and hold it once. *)
Theorem parsed_agent_types_spec : forall time_threshold df c,
  In c (parse_conversations time_threshold df) ->
  NoDup (agent_types c) /\
  (forall a, In a (agent_types c) <->
     exists b, In b (blocks c) /\ block_type b = BlockType.AGENT /\ agent_type b = Some a).
Proof.
  intros time_threshold df c Hc.
  destruct (in_parse_conversations _ _ _ Hc) as (d & Hd).
  assert (Hag : agent_types c = agent_set [] (blocks c)).
  { unfold parse_dialogue in Hd.
    destruct (conversation_data _ d) as [| r0 rs]; [discriminate |].
    injection Hd as <-; reflexivity. }
  rewrite Hag. destruct (agent_set_spec (blocks c) [] (NoDup_nil _)) as [H1 H2].
  split; [exact H1 |]. intros a; rewrite H2. split; [intros [[] | H]; exact H | intros H; right; exact H].
Qed.

(** [validate_request_category] leaves the intents alone and is the
    identity when there is no intent; otherwise its result's categories
    contain the category of the first intent, the request is returned
    unchanged when they already did, and applying it twice is the same as
    applying it once. *)
Theorem validate_request_category_spec : forall request,
  let v := validate_request_category request in
  intent v = intent request /\
  validate_request_category v = v /\
  match intent request with
  | [] => v = request
  | primary_intent :: _ =>
      In (get_category_for_intent primary_intent) (category v) /\
      (In (get_category_for_intent primary_intent) (category request) -> v = request)
  end.
Proof.
  intros [cats ints] v. unfold v, validate_request_category; simpl.
  destruct ints as [| i is]; simpl; [split; [reflexivity | split; reflexivity] |].
  destruct (in_dec category_eq_dec (get_category_for_intent i) cats) as [Hin | Hin]; simpl.
  - destruct (in_dec category_eq_dec (get_category_for_intent i) cats) as [_ | Hn];
      [| contradiction].
    split; [reflexivity | split; [reflexivity | split; [exact Hin | intros _; reflexivity]]].
  - destruct (category_eq_dec (get_category_for_intent i) (get_category_for_intent i))
      as [_ | Hn]; [| exfalso; apply Hn; reflexivity].
    split; [reflexivity | split; [reflexivity | split; [left; reflexivity | intros H; contradiction]]].
Qed.

(** ** Groq mapper *)

Lemma prefixb_app : forall p x, prefixb p (p ++ x) = true.
Proof. induction p as [| a p IH]; intros x; simpl; [reflexivity | rewrite N.eqb_refl; apply IH]. Qed.

Lemma take_digits_app : forall d c x,
  forallb is_digit d = true -> is_digit c = false ->
  take_digits (d ++ c :: x) = (d, c :: x).
Proof.
  induction d as [| a d IH]; intros c x Hd Hc; simpl.
  - rewrite Hc; reflexivity.
  - simpl in Hd. apply andb_prop in Hd as [Ha Hd]. rewrite Ha, (IH c x Hd Hc). reflexivity.
Qed.

Lemma search_wait_prefix : forall x w,
  match_wait x = Some w -> search_wait (try_again_prefix ++ x) = Some w.
Proof.
  intros x w H.
  assert (Hp : prefixb try_again_prefix (try_again_prefix ++ x) = true) by apply prefixb_app.
  assert (Hm : match_wait (skipn (List.length try_again_prefix) (try_again_prefix ++ x)) = Some w)
    by (rewrite skipn_app, skipn_all, Nat.sub_diag; exact H).
  revert Hp Hm. generalize (try_again_prefix ++ x) as s. intros [| c s] Hp Hm;
    [discriminate |].
  cbn [search_wait]. rewrite Hp, Hm. reflexivity.
Qed.

(** [_extract_wait_time] reads the wait back from a Groq message that
    starts with [Please try again in ] followed by ASCII digits, an
    optional dot and digits, and [s]: the value is the decimal number
    written there. Whenever it returns a wait, the message contains
    [Please try again in ]. *)
Theorem extract_wait_time_round_trip : forall d1 d2 rest,
  d1 <> [] -> forallb is_digit d1 = true -> forallb is_digit d2 = true ->
  extract_wait_time (try_again_prefix ++ d1 ++ 46%N :: d2 ++ 115%N :: rest)
    = Some (decimal_value d1 d2) /\
  extract_wait_time (try_again_prefix ++ d1 ++ 115%N :: rest)
    = Some (decimal_value d1 []) /\
  (forall s w, extract_wait_time s = Some w -> contains try_again_prefix s = true).
Proof.
  intros d1 d2 rest Hne Hd1 Hd2. unfold extract_wait_time. split; [| split].
  - apply search_wait_prefix. unfold match_wait.
    rewrite (take_digits_app d1 46%N _ Hd1 eq_refl).
    destruct d1 as [| c d1']; [contradiction |].
    rewrite (take_digits_app d2 115%N _ Hd2 eq_refl). reflexivity.
  - apply search_wait_prefix. unfold match_wait.
    rewrite (take_digits_app d1 115%N _ Hd1 eq_refl).
    destruct d1 as [| c d1']; [contradiction | reflexivity].
  - induction s as [| c s IH]; intros w H; cbn [search_wait contains] in H |- *.
    + destruct (prefixb try_again_prefix []); [reflexivity | discriminate].
    + destruct (prefixb try_again_prefix (c :: s)) eqn:Ep; [reflexivity |].
      simpl. exact (IH w H).
Qed.

Lemma extract_wait_time_round_trip_witness :
  u "25" <> [] /\ forallb is_digit (u "25") = true /\ forallb is_digit (u "5") = true /\
  extract_wait_time (try_again_prefix ++ u "25" ++ 46%N :: u "5" ++ 115%N :: u " later")
    = Some (decimal_value (u "25") (u "5")).
Proof.
  split; [discriminate | split; [reflexivity | split; [reflexivity |]]].
  apply (extract_wait_time_round_trip (u "25") (u "5") (u " later")); [discriminate | reflexivity | reflexivity].
Defined.

Lemma handle_rate_limit_error_some : forall e attempt mr bd j w,
  handle_rate_limit_error e attempt mr bd j = Some w ->
  is_rate_limit_error e = true /\ attempt < mr - 1.
Proof.
  intros e attempt mr bd j w H. unfold handle_rate_limit_error in H.
  destruct (is_rate_limit_error e); [| discriminate].
  destruct (attempt <? mr - 1) eqn:E; [| discriminate].
  split; [reflexivity | apply Nat.ltb_lt; exact E].
Qed.

Lemma retry_loop_structure : forall {A R} call jitter (parse : A -> R) default
    max_retries base_delay remaining attempt,
  attempt + remaining = max_retries ->
  let res := retry_loop call jitter parse default max_retries base_delay remaining attempt in
  exists k,
    retry_calls (fst res) = seq attempt k /\ k <= remaining /\
    (0 < remaining -> 1 <= k) /\
    List.length (retry_sleeps (fst res)) = k - 1 /\
    (forall a, attempt <= a < attempt + k - 1 ->
       exists e, call a = ApiErr e /\ is_rate_limit_error e = true) /\
    ((1 <= k /\ exists x, call (attempt + k - 1) = ApiOk x /\ snd res = parse x) \/
     (snd res = default /\ (k = 0 \/ exists e, call (attempt + k - 1) = ApiErr e))).
Proof.
  intros A R call jitter parse default max_retries base_delay remaining.
  induction remaining as [| rem IH]; intros attempt Hsum res; unfold res; clear res; simpl.
  - exists 0. split; [reflexivity |]. split; [lia |]. split; [lia |]. split; [reflexivity |].
    split; [intros a Ha; lia |]. right; split; [reflexivity | left; reflexivity].
  - destruct (call attempt) as [x | e] eqn:Ec.
    + exists 1. simpl. replace (attempt + 1 - 1) with attempt by lia.
      split; [reflexivity |]. split; [lia |]. split; [lia |]. split; [reflexivity |].
      split; [intros a Ha; lia |].
      left; split; [lia | exists x; split; [exact Ec | reflexivity]].
    + destruct (handle_rate_limit_error e attempt max_retries base_delay (jitter attempt))
        as [w |] eqn:Eh.
      * destruct (handle_rate_limit_error_some _ _ _ _ _ _ Eh) as [Hrl Hlt].
        destruct (IH (S attempt) ltac:(lia)) as (k & Hcalls & Hk & Hpos & Hsl & Hfail & Hres).
        destruct (retry_loop call jitter parse default max_retries base_delay rem (S attempt))
          as [evs r] eqn:Er. simpl in *.
        assert (Hk1 : 1 <= k) by (apply Hpos; lia).
        exists (S k). rewrite Hcalls. simpl.
        replace (attempt + S k - 1) with (S attempt + k - 1) by lia.
        split; [reflexivity | split; [lia | split; [lia | split; [lia | split]]]].
        -- intros a Ha. destruct (Nat.eq_dec a attempt) as [-> | Hne];
             [exists e; split; assumption | apply Hfail; lia].
        -- destruct Hres as [[_ Hok] | [Hd Herr]]; [left; split; [lia | exact Hok] |].
           right; split; [exact Hd |]. destruct Herr as [Hk0 | Herr]; [lia | right; exact Herr].
      * exists 1. simpl. replace (attempt + 1 - 1) with attempt by lia.
        split; [reflexivity |]. split; [lia |]. split; [lia |]. split; [reflexivity |].
        split; [intros a Ha; lia |].
        right; split; [reflexivity | right; exists e; exact Ec].
Qed.

(** The retry loop of [_analyze_ux] and [_analyze_intent] calls attempts
    [0, 1, ..., k-1] in order, with [1 <= k <= max_retries] when
    [max_retries > 0], and sleeps once between two consecutive attempts
    and never after the last. Every attempt before the last failed with a
    rate-limit error; the result is the parsed reply of the last attempt
    when it succeeded, and the default otherwise. *)
Theorem with_retries_structure : forall {A R} call jitter (parse : A -> R) default
    max_retries base_delay,
  let res := with_retries call jitter parse default max_retries base_delay in
  exists k,
    retry_calls (fst res) = seq 0 k /\ k <= max_retries /\
    (0 < max_retries -> 1 <= k) /\
    List.length (retry_sleeps (fst res)) = k - 1 /\
    (forall a, a < k - 1 -> exists e, call a = ApiErr e /\ is_rate_limit_error e = true) /\
    ((1 <= k /\ exists x, call (k - 1) = ApiOk x /\ snd res = parse x) \/
     (snd res = default /\ (k = 0 \/ exists e, call (k - 1) = ApiErr e))).
Proof.
  intros A R call jitter parse default max_retries base_delay res.
  destruct (retry_loop_structure call jitter parse default max_retries base_delay
              max_retries 0 eq_refl) as (k & H1 & H2 & H3 & H4 & H5 & H6).
  exists k. split; [exact H1 | split; [exact H2 | split; [exact H3 | split; [exact H4 | split]]]].
  - intros a Ha. apply H5. lia.
  - exact H6.
Qed.

Lemma with_retries_result : forall {A R} call jitter (parse : A -> R) default
    max_retries base_delay,
  snd (with_retries call jitter parse default max_retries base_delay) = default \/
  exists x, snd (with_retries call jitter parse default max_retries base_delay) = parse x.
Proof.
  intros A R call jitter parse default max_retries base_delay.
  destruct (retry_loop_structure call jitter parse default max_retries base_delay
              max_retries 0 eq_refl) as (k & _ & _ & _ & _ & _ & [[_ (x & _ & Hx)] | [Hd _]]).
  - right; exists x; exact Hx.
  - left; exact Hd.
Qed.

Lemma parse_ux_confidence : forall content,
  (0 <= sentiment_confidence (parse_ux_analysis content) <= 1)%Q.
Proof.
  intros [| s conf ems fb sg ok]; simpl.
  - split; vm_compute; discriminate.
  - destruct (Qle_bool 0 conf) eqn:E0; destruct (Qle_bool conf 1) eqn:E1; simpl;
      try (split; vm_compute; discriminate).
    split; apply Qle_bool_iff; assumption.
Qed.

Lemma parse_intent_singletons : forall content,
  exists i, parse_intent_analysis content = mkRequestCategory [get_category_for_intent i] [i] \/
            parse_intent_analysis content = default_request_category.
Proof.
  intros [| | s |]; simpl.
  - exists IntentType.GENERAL_INFO; right; reflexivity.
  - exists IntentType.GENERAL_INFO; left; reflexivity.
  - destruct (IntentType.of_value s) as [i |];
      [exists i | exists IntentType.GENERAL_INFO]; left; reflexivity.
  - exists IntentType.GENERAL_INFO; left; reflexivity.
Qed.

(** Whatever the Groq API answers, [map_conversation] returns the input
    conversation with only its [analysis] replaced; the analysis has a UX
    confidence in [0, 1], exactly one category and one intent, and the
    keyword problems detected at the 10-second threshold. *)
Theorem map_conversation_result_shape : forall o c,
  exists m,
    snd (map_conversation o c) = set_analysis c (Some m) /\
    (0 <= sentiment_confidence (cm_ux m) <= 1)%Q /\
    List.length (category (cm_request m)) = 1 /\
    List.length (intent (cm_request m)) = 1 /\
    problems (cm_problems m) = detect_problems 10 c.
Proof.
  intros o c. rewrite map_conversation_analysis.
  eexists; split; [reflexivity |]. simpl. split; [| split; [| split]].
  - unfold analyze_ux.
    destruct (with_retries_result (ux_call o) (ux_jitter o) parse_ux_analysis
                default_ux_analysis max_retries base_delay) as [-> | (x & ->)].
    + split; vm_compute; discriminate.
    + apply parse_ux_confidence.
  - unfold analyze_intent.
    destruct (with_retries_result (intent_call o) (intent_jitter o) parse_intent_analysis
                default_request_category max_retries base_delay) as [-> | (x & ->)];
      [reflexivity |].
    destruct (parse_intent_singletons x) as (i & [-> | ->]); reflexivity.
  - unfold analyze_intent.
    destruct (with_retries_result (intent_call o) (intent_jitter o) parse_intent_analysis
                default_request_category max_retries base_delay) as [-> | (x & ->)];
      [reflexivity |].
    destruct (parse_intent_singletons x) as (i & [-> | ->]); reflexivity.
  - reflexivity.
Qed.

(** ** Problem analysis *)

Lemma problem_type_eqb_iff : forall a b, ProblemType.eqb a b = true <-> a = b.
Proof. intros [] []; split; intros H; try reflexivity; discriminate. Qed.

Lemma incr_count_keys : forall p counts,
  map fst (incr_count p counts) = map fst counts.
Proof.
  intros p; induction counts as [| [r n] rest IH]; simpl; [reflexivity |].
  destruct (ProblemType.eqb p r); simpl; [reflexivity | rewrite IH; reflexivity].
Qed.

Lemma incr_count_lookup : forall p q counts,
  problem_count q (incr_count p counts) =
  if ProblemType.eqb q p then option_map S (problem_count q counts)
  else problem_count q counts.
Proof.
  intros p q; induction counts as [| [r n] rest IH].
  - destruct (ProblemType.eqb q p); reflexivity.
  - unfold problem_count in *. destruct p, q, r; simpl in *; first [reflexivity | exact IH].
Qed.

Lemma fold_incr_keys : forall ps counts,
  map fst (fold_left (fun counts problem => incr_count problem counts) ps counts)
  = map fst counts.
Proof.
  induction ps as [| p ps IH]; intros counts; simpl; [reflexivity |].
  rewrite IH; apply incr_count_keys.
Qed.

Lemma fold_incr_lookup : forall q ps counts,
  problem_count q (fold_left (fun counts problem => incr_count problem counts) ps counts)
  = option_map (fun n => n + List.length (filter (ProblemType.eqb q) ps))
      (problem_count q counts).
Proof.
  intros q; induction ps as [| p ps IH]; intros counts; cbn [fold_left filter].
  - destruct (problem_count q counts); simpl; [rewrite Nat.add_0_r |]; reflexivity.
  - rewrite IH, incr_count_lookup.
    destruct (ProblemType.eqb q p); destruct (problem_count q counts); simpl;
      [f_equal; lia | reflexivity | reflexivity | reflexivity].
Qed.

Lemma detect_problems_nodup : forall thr c, NoDup (detect_problems thr c).
Proof.
  intros thr c. unfold detect_problems.
  assert (Hk : forall f, NoDup (map fst (filter f keywords))).
  { intros f.
    assert (Hgen : forall (l : list (ProblemType.t * list ustr)),
              NoDup (map fst l) -> NoDup (map fst (filter f l))).
    { induction l as [| x l IH]; intros H; simpl; [constructor |].
      inversion H as [| ? ? Hx Hl]; subst.
      destruct (f x); simpl; [| exact (IH Hl)].
      constructor; [| exact (IH Hl)].
      intros Hin. apply Hx. apply in_map_iff in Hin as (y & Hy & Hin).
      apply filter_In in Hin as [Hin _]. rewrite <- Hy; apply in_map; exact Hin. }
    apply Hgen. rewrite keywords_kinds.
    repeat constructor; simpl; intuition discriminate. }
  destruct (has_performance_latency thr c); [| rewrite app_nil_r; apply Hk].
  apply NoDup_app; [apply Hk | repeat constructor; intros [] |].
  intros a Ha [<- | []]. apply in_map_iff in Ha as ([k kws] & Hk' & Ha). simpl in Hk'; subst k.
  apply filter_In in Ha as [Ha _]. exact (in_keyword_kinds _ _ Ha eq_refl).
Qed.

Lemma nodup_filter_eqb : forall q ps,
  NoDup ps ->
  List.length (filter (ProblemType.eqb q) ps) =
  if existsb (ProblemType.eqb q) ps then 1 else 0.
Proof.
  intros q; induction ps as [| p ps IH]; intros H; [reflexivity |].
  inversion H as [| ? ? Hp Hps]; subst. cbn [filter existsb].
  destruct (ProblemType.eqb q p) eqn:E; simpl; [| exact (IH Hps)].
  apply problem_type_eqb_iff in E; subst q.
  rewrite (proj2 (filter_nil_iff _ _)); [reflexivity |].
  intros x Hx. destruct (ProblemType.eqb p x) eqn:Ex; [| reflexivity].
  apply problem_type_eqb_iff in Ex; subst x; contradiction.
Qed.

Lemma analyze_fold_counts : forall thr q cs st,
  map fst (problem_counts (fold_left (analyze_step thr) cs st)) = map fst (problem_counts st) /\
  problem_count q (problem_counts (fold_left (analyze_step thr) cs st)) =
  option_map (fun n => n + count_with_problem thr q cs) (problem_count q (problem_counts st)).
Proof.
  intros thr q; induction cs as [| c cs IH]; intros st; cbn [fold_left count_with_problem].
  - split; [reflexivity |]. destruct (problem_count q _); simpl; [rewrite Nat.add_0_r |]; reflexivity.
  - destruct (IH (analyze_step thr st c)) as [H1 H2]. rewrite H1, H2. unfold analyze_step.
    pose proof (nodup_filter_eqb q _ (detect_problems_nodup thr c)) as Hn.
    destruct (detect_problems thr c) as [| p ps] eqn:Ed; cbn [problem_counts].
    + split; [reflexivity |]. destruct (problem_count q _); reflexivity.
    + rewrite fold_incr_keys, fold_incr_lookup, Hn. split; [reflexivity |].
      destruct (problem_count q (problem_counts st)); simpl; [f_equal; lia | reflexivity].
Qed.

(** After [analyze_conversations], [problem_counts] has one entry per
    member of [ProblemType], in declaration order, and the count of each
    problem is the number of conversations whose detected problems
    contain it (a conversation counts once per problem). *)
Theorem analyze_problem_counts : forall thr convs,
  let counts := problem_counts (analyze_conversations thr convs) in
  map fst counts = problem_types /\
  forall p, problem_count p counts = Some (count_with_problem thr p convs).
Proof.
  intros thr convs counts. unfold counts, analyze_conversations. split.
  - rewrite (proj1 (analyze_fold_counts thr ProblemType.TECHNICAL_ISSUES convs _)).
    reflexivity.
  - intros p. rewrite (proj2 (analyze_fold_counts thr p convs _)).
    destruct p; reflexivity.
Qed.

Lemma dict_set_fresh : forall {V} k (v : V) d,
  ~ In k (map fst d) -> dict_set k v d = d ++ [(k, v)].
Proof.
  intros V k v; induction d as [| [k' v'] rest IH]; intros H; [reflexivity |].
  simpl. destruct (Z.eqb k k') eqn:E.
  - apply Z.eqb_eq in E; subst k'. exfalso; apply H; left; reflexivity.
  - rewrite IH; [reflexivity | intros Hin; apply H; right; exact Hin].
Qed.

Lemma dict_set_length : forall {V} k (v : V) d,
  List.length (dict_set k v d) <= S (List.length d).
Proof.
  intros V k v; induction d as [| [k' v'] rest IH]; simpl; [lia |].
  destruct (Z.eqb k k'); simpl; lia.
Qed.

Lemma analyze_fold_dialogs : forall thr cs st,
  NoDup (map dialogue_id cs) ->
  (forall c, In c cs -> ~ In (dialogue_id c) (map fst (dialog_problems st))) ->
  dialog_problems (fold_left (analyze_step thr) cs st) =
  dialog_problems st ++ problem_entries thr cs.
Proof.
  intros thr; induction cs as [| c cs IH]; intros st Hnd Hfresh.
  - unfold problem_entries; simpl; rewrite app_nil_r; reflexivity.
  - inversion Hnd as [| ? ? Hc Hcs]; subst.
    cbn [fold_left]. unfold problem_entries; cbn [filter].
    unfold analyze_step.
    destruct (detect_problems thr c) as [| p ps] eqn:Ed.
    + apply IH; [exact Hcs |]. intros c' Hc'; apply Hfresh; right; exact Hc'.
    + rewrite IH; [| exact Hcs |].
      * cbn [dialog_problems map]. rewrite Ed, dict_set_fresh, <- app_assoc; [reflexivity |].
        apply Hfresh; left; reflexivity.
      * intros c' Hc'. cbn [dialog_problems].
        rewrite dict_set_fresh by (apply Hfresh; left; reflexivity).
        rewrite map_app. simpl. intros Hin. apply in_app_or in Hin as [Hin | [He | []]].
        -- exact (Hfresh c' (or_intror Hc') Hin).
        -- apply Hc. rewrite He. apply in_map; exact Hc'.
Qed.

Lemma analyze_fold_dialogs_length : forall thr cs st,
  List.length (dialog_problems (fold_left (analyze_step thr) cs st))
  <= List.length (dialog_problems st) + List.length cs.
Proof.
  intros thr; induction cs as [| c cs IH]; intros st; cbn [fold_left]; [simpl; lia |].
  specialize (IH (analyze_step thr st c)). unfold analyze_step in *.
  destruct (detect_problems thr c) as [| p ps]; simpl in *; [lia |].
  pose proof (dict_set_length (dialogue_id c) (p :: ps) (dialog_problems st)). lia.
Qed.

(** When the dialogue ids of the input are distinct, [dialog_problems]
    lists every conversation with at least one detected problem, in input
    order, with its problems; [problematic_conversations] is their number,
    and [get_conversations_with_problem p] returns, in input order, the ids
    of the conversations whose detected problems contain [p]. *)
Theorem analyze_dialog_problems : forall thr convs,
  NoDup (map dialogue_id convs) ->
  let a := analyze_conversations thr convs in
  dialog_problems a = problem_entries thr convs /\
  problematic_conversations (get_analysis_summary a) =
    List.length (problem_entries thr convs) /\
  forall p, get_conversations_with_problem p a =
    map dialogue_id (filter (fun c => existsb (ProblemType.eqb p) (detect_problems thr c)) convs).
Proof.
  intros thr convs Hnd a.
  assert (Hd : dialog_problems a = problem_entries thr convs).
  { unfold a, analyze_conversations. rewrite analyze_fold_dialogs; [reflexivity | exact Hnd |].
    intros c _ []. }
  split; [exact Hd | split; [simpl; rewrite Hd; reflexivity |]].
  intros p. unfold get_conversations_with_problem. rewrite Hd. clear.
  unfold problem_entries. induction convs as [| c cs IH]; [reflexivity |].
  cbn [filter]. destruct (detect_problems thr c) as [| q qs] eqn:Ed.
  - cbn [existsb]. exact IH.
  - cbn [map filter]. rewrite Ed.
    destruct (existsb (ProblemType.eqb p) (q :: qs)); cbn [map fst]; rewrite IH; reflexivity.
Qed.

Lemma analyze_dialog_problems_witness :
  NoDup (map dialogue_id (parse_conversations default_time_threshold turn_log)) /\
  dialog_problems (analyze_conversations 10 (parse_conversations default_time_threshold turn_log))
  = problem_entries 10 (parse_conversations default_time_threshold turn_log).
Proof.
  assert (Hnd : NoDup (map dialogue_id (parse_conversations default_time_threshold turn_log))).
  { assert (E : map dialogue_id (parse_conversations default_time_threshold turn_log) = [1%Z; 2%Z])
      by (vm_compute; reflexivity).
    rewrite E. constructor; [simpl; lia | constructor; [intros [] | constructor]]. }
  split; [exact Hnd | exact (proj1 (analyze_dialog_problems 10 _ Hnd))].
Defined.

Lemma analyze_fold_total : forall thr cs st,
  total_conversations (fold_left (analyze_step thr) cs st) = total_conversations st.
Proof.
  intros thr; induction cs as [| c cs IH]; intros st; [reflexivity |].
  cbn [fold_left]. rewrite IH. unfold analyze_step.
  destruct (detect_problems thr c); reflexivity.
Qed.

Lemma count_with_problem_le : forall thr p cs,
  count_with_problem thr p cs <= List.length cs.
Proof.
  intros thr p; induction cs as [| c cs IH]; cbn [count_with_problem]; simpl; [lia |].
  destruct (existsb _ _); lia.
Qed.

Lemma problem_count_in : forall p n counts,
  NoDup (map fst counts) -> In (p, n) counts -> problem_count p counts = Some n.
Proof.
  intros p n; induction counts as [| [q m] rest IH]; intros Hnd Hin; [destruct Hin |].
  inversion Hnd as [| ? ? Hq Hrest]; subst. unfold problem_count; simpl.
  destruct Hin as [He | Hin].
  - injection He as -> ->. rewrite (proj2 (problem_type_eqb_iff p p) eq_refl). reflexivity.
  - destruct (ProblemType.eqb p q) eqn:E.
    + apply problem_type_eqb_iff in E; subst q. exfalso; apply Hq.
      apply (in_map fst) in Hin; exact Hin.
    + exact (IH Hrest Hin).
Qed.

Lemma ratio_bounds : forall a b : nat,
  a <= b -> 0 < b ->
  (0 <= inject_Z (Z.of_nat a) / inject_Z (Z.of_nat b) <= 1)%Q.
Proof.
  intros a b Hab Hb.
  assert (Hb' : (0 < inject_Z (Z.of_nat b))%Q)
    by (change 0%Q with (inject_Z 0); rewrite <- Zlt_Qlt; lia).
  split.
  - apply Qle_shift_div_l; [exact Hb' |]. rewrite Qmult_0_l.
    change 0%Q with (inject_Z 0); rewrite <- Zle_Qle; lia.
  - apply Qle_shift_div_r; [exact Hb' |]. rewrite Qmult_1_l.
    rewrite <- Zle_Qle; lia.
Qed.

Lemma percent_bounds : forall a b : nat,
  a <= b -> 0 < b ->
  (0 <= inject_Z (Z.of_nat a) / inject_Z (Z.of_nat b) * 100 <= 100)%Q.
Proof.
  intros a b Hab Hb. destruct (ratio_bounds a b Hab Hb) as [H0 H1]. split.
  - apply Qmult_le_0_compat; [exact H0 | vm_compute; discriminate].
  - apply Qle_trans with (1 * 100)%Q; [| vm_compute; discriminate].
    apply Qmult_le_compat_r; [exact H1 | vm_compute; discriminate].
Qed.

(** The summary of [analyze_conversation_problems] counts every input
    conversation; at most all of them are problematic, the problem rate
    lies in [0, 1] and every problem percentage in [0, 100] (all are 0 on
    an empty input). *)
Theorem analysis_summary_bounds : forall convs latency_threshold,
  let s := analyze_conversation_problems convs latency_threshold in
  summary_total_conversations s = List.length convs /\
  problematic_conversations s <= List.length convs /\
  (0 <= problem_rate s <= 1)%Q /\
  (forall p q, In (p, q) (problem_percentages s) -> (0 <= q <= 100)%Q) /\
  (convs = [] -> problem_rate s = 0%Q /\
     forall p q, In (p, q) (problem_percentages s) -> q = 0%Q).
Proof.
  intros convs thr s.
  set (a := analyze_conversations thr convs).
  assert (Htot : total_conversations a = List.length convs)
    by (unfold a, analyze_conversations; rewrite analyze_fold_total; reflexivity).
  assert (Hprob : List.length (dialog_problems a) <= List.length convs).
  { unfold a, analyze_conversations. pose proof (analyze_fold_dialogs_length thr convs
      (mkProblemAnalyzer (problem_counts reset_stats) (dialog_problems reset_stats)
         (List.length convs))) as H. simpl in H. exact H. }
  assert (Hcnt : forall p n, In (p, n) (problem_counts a) -> n <= List.length convs).
  { intros p n Hin.
    destruct (analyze_fold_counts thr p convs
      (mkProblemAnalyzer (problem_counts reset_stats) (dialog_problems reset_stats)
         (List.length convs))) as [Hk Hv].
    fold (analyze_conversations thr convs) in Hk, Hv. fold a in Hk, Hv.
    rewrite (problem_count_in p n) in Hv.
    - destruct p; simpl in Hv; injection Hv as ->; apply count_with_problem_le.
    - rewrite Hk. simpl. repeat constructor; simpl; intuition discriminate.
    - exact Hin. }
  unfold s, analyze_conversation_problems, get_analysis_summary. fold a.
  cbn [summary_total_conversations problematic_conversations problem_rate
       problem_percentages].
  rewrite Htot. split; [reflexivity | split; [exact Hprob | split; [| split]]].
  - destruct (0 <? List.length convs) eqn:E; [| split; vm_compute; discriminate].
    apply ratio_bounds; [exact Hprob | apply Nat.ltb_lt; exact E].
  - intros p q Hin. apply in_map_iff in Hin as ([p' n] & He & Hin). injection He as <- <-.
    destruct (0 <? List.length convs) eqn:E; [| split; vm_compute; discriminate].
    apply percent_bounds; [exact (Hcnt p' n Hin) | apply Nat.ltb_lt; exact E].
  - intros ->. split; [reflexivity |].
    intros p q Hin. apply in_map_iff in Hin as ([p' n] & He & _). injection He as <- <-.
    reflexivity.
Qed.

Lemma problem_types_nodup : NoDup problem_types.
Proof. unfold problem_types; repeat constructor; simpl; intuition discriminate. Qed.

Lemma counts_from_lookups : forall (f : ProblemType.t -> nat) counts ks,
  map fst counts = ks -> NoDup ks ->
  (forall p, In p ks -> problem_count p counts = Some (f p)) ->
  counts = map (fun p => (p, f p)) ks.
Proof.
  intros f counts; induction counts as [| [k n] rest IH]; intros ks Hk Hnd Hl.
  - subst ks; reflexivity.
  - destruct ks as [| k' ks']; [discriminate |].
    injection Hk as <- Hk. inversion Hnd as [| ? ? Hnotin Hnd']; subst.
    assert (Hn : n = f k).
    { specialize (Hl k (or_introl eq_refl)). unfold problem_count in Hl.
      simpl in Hl. rewrite (proj2 (problem_type_eqb_iff k k) eq_refl) in Hl.
      simpl in Hl. injection Hl as ->. reflexivity. }
    subst n. simpl. f_equal. apply IH; [reflexivity | exact Hnd' |].
    intros p Hp. specialize (Hl p (or_intror Hp)). unfold problem_count in Hl |- *.
    simpl in Hl. destruct (ProblemType.eqb p k) eqn:E; [| exact Hl].
    apply problem_type_eqb_iff in E; subst p. contradiction.
Qed.

(** [get_problem_distribution] after [analyze_conversations]: one entry
    per [ProblemType], in declaration order.  The entry of [p] is [0.0]
    when no problem was detected at all, and otherwise the double
    [n p / total * 100], where [n p] counts the conversations whose
    detected problems include [p] and [total] is the sum of these counts. *)
Theorem problem_distribution_closed_form : forall thr convs,
  let n := fun p => count_with_problem thr p convs in
  let total := list_sum (map n problem_types) in
  get_problem_distribution (analyze_conversations thr convs) =
  map (fun p => (p, if total =? 0 then float_of_Z 0
                    else PrimFloat.mul
                           (PrimFloat.div (float_of_Z (Z.of_nat (n p)))
                                          (float_of_Z (Z.of_nat total)))
                           (float_of_Z 100)))
      problem_types.
Proof.
  intros thr convs n total.
  assert (Hinit : map fst (problem_counts reset_stats) = problem_types).
  { reflexivity. }
  assert (Hc : problem_counts (analyze_conversations thr convs) =
               map (fun p => (p, n p)) problem_types).
  { apply counts_from_lookups; [| exact problem_types_nodup |].
    - unfold analyze_conversations.
      rewrite (proj1 (analyze_fold_counts thr ProblemType.PERFORMANCE_LATENCY convs _)).
      exact Hinit.
    - intros p Hp. unfold analyze_conversations.
      rewrite (proj2 (analyze_fold_counts thr p convs _)).
      clear Hp; destruct p; reflexivity. }
  unfold get_problem_distribution. rewrite Hc, map_map.
  change (list_sum (map (fun x => snd (x, n x)) problem_types)) with total.
  destruct (total =? 0); [reflexivity |].
  rewrite map_map. reflexivity.
Qed.

Lemma insert_desc_perm : forall x l, Permutation (insert_desc x l) (x :: l).
Proof.
  intros x; induction l as [| y ys IH]; simpl; [reflexivity |].
  destruct (snd x <? snd y); [| reflexivity].
  rewrite IH. apply perm_swap.
Qed.

Lemma sort_desc_perm : forall l, Permutation (sort_desc l) l.
Proof.
  induction l as [| x xs IH]; simpl; [reflexivity |].
  rewrite insert_desc_perm, IH. reflexivity.
Qed.

Lemma insert_desc_sorted : forall x l,
  Sorted.StronglySorted (fun a b => snd b <= snd a) l ->
  Sorted.StronglySorted (fun a b => snd b <= snd a) (insert_desc x l).
Proof.
  intros x; induction l as [| y ys IH]; intros H; simpl.
  - repeat constructor.
  - inversion H as [| ? ? Hys Hy]; subst.
    destruct (snd x <? snd y) eqn:E.
    + apply Nat.ltb_lt in E. constructor; [exact (IH Hys) |].
      apply Forall_forall. intros z Hz.
      apply (Permutation_in _ (insert_desc_perm x ys)) in Hz as [<- | Hz]; [lia |].
      rewrite Forall_forall in Hy. exact (Hy z Hz).
    + apply Nat.ltb_ge in E. constructor; [exact H |].
      constructor; [exact E |]. apply Forall_forall. intros z Hz.
      rewrite Forall_forall in Hy. specialize (Hy z Hz). lia.
Qed.

Lemma sort_desc_sorted : forall l,
  Sorted.StronglySorted (fun a b => snd b <= snd a) (sort_desc l).
Proof.
  induction l as [| x xs IH]; simpl; [constructor |]. apply insert_desc_sorted; exact IH.
Qed.

Lemma strongly_sorted_app : forall {A} (R : A -> A -> Prop) l1 l2,
  Sorted.StronglySorted R (l1 ++ l2) ->
  Sorted.StronglySorted R l1 /\ forall x y, In x l1 -> In y l2 -> R x y.
Proof.
  intros A R; induction l1 as [| x l1 IH]; intros l2 H; simpl in H.
  - split; [constructor | intros x y []].
  - inversion H as [| ? ? Hs Hx]; subst. destruct (IH l2 Hs) as [H1 H2].
    rewrite Forall_forall in Hx. split.
    + constructor; [exact H1 |]. apply Forall_forall. intros y Hy; apply Hx, in_or_app; left; exact Hy.
    + intros a b [<- | Ha] Hb; [apply Hx, in_or_app; right; exact Hb | exact (H2 a b Ha Hb)].
Qed.

(** The [top_problems] of an analysis are three entries of
    [problem_counts], by non-increasing count, and no problem left out has
    a larger count than any of them. *)
Theorem top_problems_spec : forall thr convs,
  let a := analyze_conversations thr convs in
  let top := get_top_problems 3 a in
  List.length top = 3 /\
  (forall x, In x top -> In x (problem_counts a)) /\
  Sorted.StronglySorted (fun x y => snd y <= snd x) top /\
  (forall p n, In (p, n) (problem_counts a) -> ~ In p (map fst top) ->
     forall x, In x top -> n <= snd x).
Proof.
  intros thr convs a top.
  assert (Hk : map fst (problem_counts a) = problem_types).
  { unfold a, analyze_conversations.
    rewrite (proj1 (analyze_fold_counts thr ProblemType.TECHNICAL_ISSUES convs _)). reflexivity. }
  assert (Hlen : List.length (sort_desc (problem_counts a)) = 6).
  { rewrite (Permutation_length (sort_desc_perm _)), <- (length_map fst), Hk. reflexivity. }
  pose proof (sort_desc_sorted (problem_counts a)) as Hs.
  rewrite <- (firstn_skipn 3 (sort_desc (problem_counts a))) in Hs.
  destruct (strongly_sorted_app _ _ _ Hs) as [Htop Hrest].
  split; [unfold top, get_top_problems; rewrite length_firstn, Hlen; reflexivity |].
  split; [| split; [exact Htop |]].
  - intros x Hx. apply (Permutation_in _ (sort_desc_perm _)).
    exact (in_firstn_in _ _ _ Hx).
  - intros p n Hin Hnot x Hx.
    apply (Permutation_in _ (Permutation_sym (sort_desc_perm _))) in Hin.
    rewrite <- (firstn_skipn 3 (sort_desc (problem_counts a))) in Hin.
    apply in_app_or in Hin as [Hin | Hin].
    + exfalso. apply Hnot. apply (in_map fst) in Hin. exact Hin.
    + exact (Hrest x (p, n) Hx Hin).
Qed.

(** ** Batch processors *)

Lemma conversation_to_dict_analysis : forall c d,
  conversation_to_dict c = Some d -> d_analysis d = None.
Proof.
  intros c d H; unfold conversation_to_dict in H.
  destruct (analysis c); [discriminate | injection H as <-; reflexivity].
Qed.

Lemma collect_batch_no_analysis : forall mapper timed_out batch idx ds,
  collect_batch mapper timed_out idx batch = Some ds ->
  forall d, In d ds -> d_analysis d = None.
Proof.
  intros mapper timed_out; induction batch as [| c cs IH]; intros idx ds H d Hd; simpl in H.
  - injection H as <-; destruct Hd.
  - destruct (collect_one mapper timed_out idx c) as [d0 |] eqn:E1; [| discriminate].
    destruct (collect_batch mapper timed_out (S idx) cs) as [ds' |] eqn:E2; [| discriminate].
    injection H as <-. destruct Hd as [<- | Hd]; [| exact (IH _ _ E2 d Hd)].
    unfold collect_one in E1.
    destruct (match task_result mapper timed_out idx c with
              | TaskDone conv _ => conversation_to_dict conv
              | TaskTimeout => None end) as [d1 |] eqn:E3.
    + injection E1 as <-.
      destruct (task_result mapper timed_out idx c); [| discriminate].
      exact (conversation_to_dict_analysis _ _ E3).
    + exact (conversation_to_dict_analysis _ _ E1).
Qed.

Lemma conv_batches_progress : forall mapper timed_out batch_size conversations
    start_index fuel i tp st,
  0 < batch_size ->
  forallb unanalysed conversations = true ->
  List.length conversations - i <= fuel ->
  i < List.length conversations ->
  progress_file (run_effects st
    (conv_batches mapper timed_out batch_size conversations start_index fuel i tp)) =
  Some (tp + (List.length conversations - i)).
Proof.
  intros mapper timed_out bs convs s fuel.
  induction fuel as [| fuel IH]; intros i tp st Hbs Hall Hfuel Hi; [lia |].
  simpl. assert (Hlt : (i <? List.length convs) = true) by (apply Nat.ltb_lt; exact Hi).
  rewrite Hlt.
  set (k := Nat.min (i + bs) (List.length convs) - i).
  assert (Hallb : forallb unanalysed (firstn k (skipn i convs)) = true).
  { apply forallb_forall; intros x Hx.
    apply (proj1 (forallb_forall _ _) Hall).
    exact (in_skipn_in _ _ _ (in_firstn_in _ _ _ Hx)). }
  destruct (collect_batch_total mapper timed_out _ i Hallb) as (bp & Hbp & _ & _).
  assert (Hklen : List.length (firstn k (skipn i convs)) = k).
  { rewrite length_firstn, length_skipn; unfold k; lia. }
  rewrite Hbp, !run_effects_cons, Hklen.
  destruct (Nat.lt_ge_cases (i + bs) (List.length convs)) as [Hmore | Hend].
  - rewrite IH by (first [exact Hbs | exact Hall | lia]). f_equal. unfold k; lia.
  - rewrite conv_batches_done by exact Hend. simpl. f_equal. unfold k; lia.
Qed.

(** A [ConversationProcessor] run with a positive batch size over
    conversations loaded without analysis never stores an analysis:
    every record it writes has a null [analysis], whatever the mapper
    returns, because [conversation_to_dict] fails on an analysed
    conversation and the [except] branch then serializes the input. At
    the end the progress file holds the number of conversations. *)
Theorem conv_processor_never_saves_analysis :
  forall mapper timed_out batch_size conversations start_index st0,
  0 < batch_size ->
  forallb unanalysed conversations = true ->
  start_index < List.length conversations ->
  let st := run_effects st0 (process_conversations_concurrent mapper timed_out
                               batch_size conversations start_index) in
  progress_file st = Some (List.length conversations) /\
  exists recs,
    results_file st =
      Some ((if start_index =? 0 then [] else results_or_nil st0) ++ recs) /\
    forall d, In d recs -> d_analysis d = None.
Proof.
  intros mapper timed_out bs convs s st0 Hbs Hall Hs st.
  assert (Hsuf : forallb unanalysed (skipn s convs) = true).
  { apply forallb_forall; intros x Hx.
    apply (proj1 (forallb_forall _ _) Hall). exact (in_skipn_in _ _ _ Hx). }
  destruct (collect_batch_total mapper timed_out _ s Hsuf) as (ds & Hds & _ & _).
  assert (Hb : (bs =? 0) = false) by (apply Nat.eqb_neq; lia).
  split.
  - unfold st, process_conversations_concurrent. rewrite Hb.
    rewrite conv_batches_progress by (try lia; exact Hall). f_equal; lia.
  - exists ds; split.
    + unfold st, process_conversations_concurrent. rewrite Hb.
      rewrite (conv_batches_results mapper timed_out bs convs s _ s s st0 ds Hbs Hall)
        by (try lia; exact Hds).
      destruct (s =? 0); reflexivity.
    + exact (collect_batch_no_analysis _ _ _ _ _ Hds).
Qed.

Lemma conv_processor_never_saves_analysis_witness :
  0 < 2 /\ forallb unanalysed [sample_conversation; slow_exchange] = true /\
  0 < List.length [sample_conversation; slow_exchange] /\
  progress_file (run_effects empty_store
    (process_conversations_concurrent (fun c => Some (snd (map_conversation answering_oracle c)))
       (fun _ => false) 2 [sample_conversation; slow_exchange] 0)) = Some 2.
Proof.
  assert (H1 : 0 < 2) by lia.
  assert (H2 : forallb unanalysed [sample_conversation; slow_exchange] = true) by reflexivity.
  assert (H3 : 0 < List.length [sample_conversation; slow_exchange]) by (simpl; lia).
  split; [exact H1 | split; [exact H2 | split; [exact H3 |]]].
  exact (proj1 (conv_processor_never_saves_analysis
                  (fun c => Some (snd (map_conversation answering_oracle c)))
                  (fun _ => false) 2 [sample_conversation; slow_exchange] 0 empty_store
                  H1 H2 H3)).
Defined.

Lemma nth_error_list_set : forall {A} (l : list A) n v j,
  nth_error (list_set l n v) j =
  if j =? n then option_map (fun _ => v) (nth_error l j) else nth_error l j.
Proof.
  intros A l; induction l as [| x xs IH]; intros n v j.
  - destruct j, n; simpl; try reflexivity. destruct (j =? n); reflexivity.
  - destruct n as [| n], j as [| j]; simpl; try reflexivity.
    apply IH.
Qed.

Lemma overwrite_prefix_same_length : forall data new,
  List.length data = List.length new -> overwrite_prefix data new = new.
Proof.
  induction data as [| d ds IH]; intros [| n ns] H; simpl in H; try discriminate; [reflexivity |].
  simpl. rewrite IH by lia. reflexivity.
Qed.

Lemma nth_error_map_length : forall {A B} (f : nat -> A -> B) (l1 : list B) (l2 : list A),
  (forall j, nth_error l1 j = option_map (f j) (nth_error l2 j)) ->
  List.length l1 = List.length l2.
Proof.
  intros A B f l1 l2 H.
  destruct (Nat.lt_trichotomy (List.length l1) (List.length l2)) as [Hlt | [Heq | Hgt]];
    [| exact Heq |].
  - destruct (nth_error l2 (List.length l1)) eqn:E.
    + specialize (H (List.length l1)). rewrite E in H.
      rewrite (proj2 (nth_error_None _ _) (Nat.le_refl _)) in H. discriminate.
    + apply nth_error_None in E. lia.
  - destruct (nth_error l1 (List.length l2)) eqn:E.
    + specialize (H (List.length l2)). rewrite E in H.
      rewrite (proj2 (nth_error_None _ _) (Nat.le_refl _)) in H. discriminate.
    + apply nth_error_None in E. lia.
Qed.

Lemma groq_collect_spec : forall oracle timed_out conversations start_index m idx updated,
  start_index <= idx ->
  (forall j, nth_error updated j =
     option_map (groq_expected oracle timed_out start_index idx j) (nth_error conversations j)) ->
  forall j, nth_error (groq_collect oracle timed_out idx
                         (firstn m (skipn idx conversations)) updated) j =
    option_map (groq_expected oracle timed_out start_index
                  (idx + List.length (firstn m (skipn idx conversations))) j)
      (nth_error conversations j).
Proof.
  intros oracle timed_out convs s m. induction m as [| m IH]; intros idx upd Hs Hupd j.
  - simpl. rewrite Nat.add_0_r. apply Hupd.
  - destruct (skipn idx convs) as [| c rest] eqn:Esk.
    + simpl. rewrite Nat.add_0_r. apply Hupd.
    + assert (Hc : nth_error convs idx = Some c).
      { rewrite <- (Nat.add_0_r idx), <- nth_error_skipn, Esk. reflexivity. }
      assert (Hrest : skipn (S idx) convs = rest).
      { rewrite <- (skipn_skipn 1 idx), Esk. reflexivity. }
      cbn [firstn groq_collect List.length].
      replace (idx + S (List.length (firstn m rest)))
        with (S idx + List.length (firstn m (skipn (S idx) convs))) by (rewrite Hrest; lia).
      rewrite <- Hrest. unfold groq_task_result.
      assert (Hstep : forall j', j' <> idx ->
                groq_expected oracle timed_out s (S idx) j' =
                groq_expected oracle timed_out s idx j').
      { intros j' Hne. unfold groq_expected.
        replace (j' <? S idx) with (j' <? idx); [reflexivity |].
        destruct (j' <? idx) eqn:E1, (j' <? S idx) eqn:E2; try reflexivity;
          [apply Nat.ltb_lt in E1; apply Nat.ltb_ge in E2 | apply Nat.ltb_ge in E1;
           apply Nat.ltb_lt in E2]; lia. }
      destruct (timed_out idx) eqn:Et; cbn [process_conversation_sync];
        apply IH; try lia; intros j'.
      * destruct (Nat.eq_dec j' idx) as [-> | Hne].
        -- rewrite Hupd, Hc. simpl. unfold groq_expected. rewrite Et, !andb_false_r.
           reflexivity.
        -- rewrite Hstep by exact Hne. apply Hupd.
      * rewrite nth_error_list_set. destruct (Nat.eq_dec j' idx) as [-> | Hne].
        -- rewrite Nat.eqb_refl, Hupd, Hc. simpl. unfold groq_expected.
           rewrite Et. replace (s <=? idx) with true by (symmetry; apply Nat.leb_le; lia).
           replace (idx <? S idx) with true by (symmetry; apply Nat.ltb_lt; lia).
           reflexivity.
        -- replace (j' =? idx) with false by (symmetry; apply Nat.eqb_neq; exact Hne).
           rewrite Hstep by exact Hne. apply Hupd.
Qed.

Lemma groq_batches_done : forall oracle timed_out batch_size conversations fuel i tp updated,
  List.length conversations <= i ->
  groq_batches oracle timed_out batch_size conversations fuel i tp updated = [].
Proof.
  intros oracle timed_out bs convs [| fuel] i tp upd H; [reflexivity |].
  simpl. assert (Hb : (i <? List.length convs) = false) by (apply Nat.ltb_ge; exact H).
  rewrite Hb; reflexivity.
Qed.

Lemma groq_batches_final : forall oracle timed_out batch_size conversations start_index
    fuel i tp updated st data,
  0 < batch_size -> start_index <= i -> i < List.length conversations ->
  List.length conversations - i <= fuel ->
  (forall j, nth_error updated j =
     option_map (groq_expected oracle timed_out start_index i j) (nth_error conversations j)) ->
  results_file st = Some data -> List.length data = List.length conversations ->
  exists final,
    run_effects st (groq_batches oracle timed_out batch_size conversations fuel i tp updated) =
      mkStore (Some (map groq_conversation_to_dict final))
              (Some (tp + (List.length conversations - i))) /\
    forall j, nth_error final j =
      option_map (groq_expected oracle timed_out start_index (List.length conversations) j)
        (nth_error conversations j).
Proof.
  intros oracle timed_out bs convs s fuel.
  induction fuel as [| fuel IH]; intros i tp upd st data Hbs Hs Hi Hfuel Hupd Hst Hdata; [lia |].
  simpl. assert (Hlt : (i <? List.length convs) = true) by (apply Nat.ltb_lt; exact Hi).
  rewrite Hlt.
  set (k := Nat.min (i + bs) (List.length convs) - i).
  assert (Hklen : List.length (firstn k (skipn i convs)) = k).
  { rewrite length_firstn, length_skipn; unfold k; lia. }
  set (upd' := groq_collect oracle timed_out i (firstn k (skipn i convs)) upd).
  assert (Hupd' : forall j, nth_error upd' j =
            option_map (groq_expected oracle timed_out s (i + k) j) (nth_error convs j)).
  { intros j. unfold upd'. rewrite (groq_collect_spec oracle timed_out convs s k i upd Hs Hupd j).
    rewrite Hklen. reflexivity. }
  assert (Hlen' : List.length (map groq_conversation_to_dict upd') = List.length data).
  { rewrite length_map, Hdata. exact (nth_error_map_length _ _ _ Hupd'). }
  rewrite !run_effects_cons. rewrite Hklen.
  set (st1 := apply_effect (apply_effect (apply_effect st
                (SaveProgress (tp + k) (List.length convs)))
                (UpdateConversationsFile upd')) SleepBatch).
  assert (Hst1 : st1 = mkStore (Some (map groq_conversation_to_dict upd')) (Some (tp + k))).
  { unfold st1; simpl. rewrite Hst. simpl.
    rewrite overwrite_prefix_same_length by (symmetry; exact Hlen'). reflexivity. }
  rewrite Hst1.
  destruct (Nat.lt_ge_cases (i + bs) (List.length convs)) as [Hmore | Hend].
  - assert (Hk : k = bs) by (unfold k; lia).
    destruct (IH (i + bs) (tp + k) upd'
                (mkStore (Some (map groq_conversation_to_dict upd')) (Some (tp + k)))
                (map groq_conversation_to_dict upd'))
      as (final & Hrun & Hfinal); try lia.
    + rewrite <- Hk. exact Hupd'.
    + reflexivity.
    + exists final. rewrite Hrun. split; [do 2 f_equal; lia | exact Hfinal].
  - rewrite groq_batches_done by exact Hend.
    exists upd'. split; [unfold run_effects; cbn [fold_left]; do 2 f_equal; unfold k; lia |].
    replace (List.length convs) with (i + k) by (unfold k; lia). exact Hupd'.
Qed.

(** A [GroqProcessor] run with a positive batch size, started on the
    conversations file it loads, leaves in that file one entry per
    conversation, in order: the conversation analysed by
    [map_conversation] when its index is at least [start_index] and its
    task did not time out, and the conversation as loaded otherwise. The
    progress file then holds the number of conversations (it is not
    written when [start_index] is past the end). *)
Theorem groq_processor_final_files :
  forall oracle timed_out batch_size conversations start_index,
  0 < batch_size ->
  let st := run_effects (groq_store conversations)
              (process_ux_and_intent_analysis oracle timed_out batch_size
                 conversations start_index) in
  progress_file st =
    (if start_index <? List.length conversations
     then Some (List.length conversations) else None) /\
  exists final,
    results_file st = Some (map groq_conversation_to_dict final) /\
    List.length final = List.length conversations /\
    forall j c, nth_error conversations j = Some c ->
      nth_error final j =
        Some (if (start_index <=? j) && negb (timed_out j)
              then snd (map_conversation (oracle j) c) else c).
Proof.
  intros oracle timed_out bs convs s Hbs st.
  assert (Hb : (bs =? 0) = false) by (apply Nat.eqb_neq; lia).
  assert (Hexp : forall j c, nth_error convs j = Some c ->
            groq_expected oracle timed_out s (List.length convs) j c =
            if (s <=? j) && negb (timed_out j)
            then snd (map_conversation (oracle j) c) else c).
  { intros j c Hj. unfold groq_expected.
    replace (j <? List.length convs) with true
      by (symmetry; apply Nat.ltb_lt; apply nth_error_Some; congruence).
    rewrite andb_true_r. reflexivity. }
  unfold st, process_ux_and_intent_analysis. rewrite Hb.
  destruct (s <? List.length convs) eqn:Hs.
  - apply Nat.ltb_lt in Hs.
    destruct (groq_batches_final oracle timed_out bs convs s (List.length convs) s s convs
                (groq_store convs) (map groq_conversation_to_dict convs))
      as (final & Hrun & Hfinal); try lia.
    + intros j. destruct (nth_error convs j) as [c |]; [| reflexivity].
      simpl. unfold groq_expected.
      replace ((s <=? j) && (j <? s)) with false; [reflexivity |].
      destruct (s <=? j) eqn:E1, (j <? s) eqn:E2; try reflexivity.
      apply Nat.leb_le in E1; apply Nat.ltb_lt in E2; lia.
    + reflexivity.
    + apply length_map.
    + rewrite Hrun. split; [simpl; f_equal; lia |].
      exists final. split; [reflexivity | split].
      * exact (nth_error_map_length _ _ _ Hfinal).
      * intros j c Hj. rewrite Hfinal, Hj. simpl. rewrite (Hexp j c Hj). reflexivity.
  - apply Nat.ltb_ge in Hs.
    rewrite groq_batches_done by exact Hs.
    split; [reflexivity |]. exists convs. split; [reflexivity | split; [reflexivity |]].
    intros j c Hj.
    assert (Hj' : j < List.length convs) by (apply nth_error_Some; congruence).
    replace (s <=? j) with false by (symmetry; apply Nat.leb_gt; lia).
    exact Hj.
Qed.

Lemma groq_processor_final_files_witness :
  0 < 25 /\
  progress_file (run_effects (groq_store [sample_conversation])
    (process_ux_and_intent_analysis (fun _ => answering_oracle) (fun _ => false) 25
       [sample_conversation] 0)) = Some 1.
Proof.
  assert (H : 0 < 25) by lia. split; [exact H |].
  exact (proj1 (groq_processor_final_files (fun _ => answering_oracle) (fun _ => false) 25
                  [sample_conversation] 0 H)).
Defined.

Lemma parsed_conversation_bounds_witness :
  In first_turn_conversation (parse_conversations default_time_threshold turn_log) /\
  1 <= List.length (blocks first_turn_conversation) <= message_count first_turn_conversation.
Proof.
  assert (Hin : In first_turn_conversation
                  (parse_conversations default_time_threshold turn_log))
    by (vm_compute; left; reflexivity).
  split; [exact Hin |].
  exact (proj2 (proj2 (proj2 (proj2
           (parsed_conversation_bounds default_time_threshold turn_log _ Hin))))).
Defined.

Lemma parsed_agent_types_spec_witness :
  In first_turn_conversation (parse_conversations default_time_threshold turn_log) /\
  NoDup (agent_types first_turn_conversation).
Proof.
  assert (Hin : In first_turn_conversation
                  (parse_conversations default_time_threshold turn_log))
    by (vm_compute; left; reflexivity).
  split; [exact Hin |].
  exact (proj1 (parsed_agent_types_spec default_time_threshold turn_log _ Hin)).
Defined.
